(** * js-inheritance: a shallow embedding of [inheritance.js]

    The library builds classes with single inheritance on top of JavaScript
    prototype delegation.  The development below models the part of the
    JavaScript object heap the library touches (objects with own properties,
    a delegation link, and an optional callable), embeds every function of
    [inheritance.js] over that heap, and proves the properties of the
    class factory, the member installer and the super-dispatch wrapper.

    What the model covers.  The library runs in strict mode, so a function
    called without a receiver sees [undefined] as [this], and an assignment
    to a property of a primitive or to a read-only property throws.  The
    objects a program makes are ordinary: no accessors, no frozen objects;
    the only read-only properties are the ones every function has ([name],
    [length], and [caller] and [arguments], which throw on a strict
    function).  [Object.prototype] and [Function.prototype] are objects of
    the heap like any other, at the first two locations, and hold what the
    heap says they hold.  [props.hasOwnProperty] in [Helper.extend] is
    looked up on the member set, as the call on line 33 does; [toString] and
    [apply] of a function and [Object.create] are taken to be the builtins.
    Primitives carry no properties.  Numbers are integers.  The guard on
    the global [Class] that runs when the file is loaded is not part of the
    functions below. *)

From Stdlib Require Import ZArith String.
From stdpp Require Import gmap strings list pretty.

Local Open Scope string_scope.
Local Open Scope list_scope.

(** ** Values, objects and the heap *)

Abbreviation loc := nat.

(** A reference carries the callability of its target: [typeof] of a
    JavaScript object never changes after the object is created. *)
Inductive Value : Type :=
| VUndef
| VNull
| VBool (b : bool)
| VNum (z : Z)
| VStr (s : string)
| VObj (l : loc)
| VFun (l : loc).

(** What a [throw] carries.  [TypeError msg] stands for [new TypeError(msg)],
    also for the ones the engine raises itself. *)
Inductive Exn : Type :=
| TypeError (msg : string)
| JsError (msg : string)
| Thrown (v : Value).

(** What a body can ask about the properties of a value without reading
    one: [Object.prototype.hasOwnProperty.call(o, name)], [name in o],
    [Object.keys(o)], and the names [for (name in o)] visits. *)
Inductive Query : Type :=
| QHasOwn (o : Value) (name : string)
| QIn (o : Value) (name : string)
| QKeys (o : Value)
| QForIn (o : Value).

Inductive Answer : Type :=
| ABool (b : bool)
| AKeys (names : list string).

(** Function bodies are trees of heap effects; the continuation of an effect
    receives its result.  There is no [try]: the source has none. *)
Inductive Prog : Type :=
| PRet (v : Value)
| PThrow (e : Exn)
| PGet (o : Value) (name : string) (k : Value -> Prog)
| PSet (o : Value) (name : string) (v : Value) (k : Prog)
| PCall (f this : Value) (args : list Value) (k : Value -> Prog)
| PAsk (q : Query) (k : Answer -> Prog).

(** A callable: the text [toString()] returns and the body, a function of
    the receiver and the arguments. *)
Record Callable : Type := mkCallable {
  src : string;
  body : Value -> list Value -> Prog
}.

(** [hidden] lists the own properties [for ... in] does not enumerate (the
    [prototype] of a function, the [constructor] of its default prototype). *)
Record Obj : Type := mkObj {
  props : gmap string Value;
  hidden : list string;
  proto : option loc;
  code : option Callable
}.

(** The heap is the list of the objects allocated so far; a location is an
    index.  A delegation link always points to an object allocated earlier:
    the lookup follows no other link, so every chain is finite. *)
Abbreviation Heap := (list Obj).

Definition ObjectPrototype : loc := 0.
Definition FunctionPrototype : loc := 1.

Definition typeof (v : Value) : string :=
  match v with
  | VUndef => "undefined"
  | VNull => "object"
  | VBool _ => "boolean"
  | VNum _ => "number"
  | VStr _ => "string"
  | VObj _ => "object"
  | VFun _ => "function"
  end.

(** ToBoolean, as [&&] applies it. *)
Definition truthy (v : Value) : bool :=
  match v with
  | VUndef | VNull => false
  | VBool b => b
  | VNum z => negb (z =? 0)%Z
  | VStr s => negb (String.eqb s "")
  | VObj _ | VFun _ => true
  end.

Definition set_own (name : string) (v : Value) (o : Obj) : Obj :=
  mkObj (<[name := v]> (props o)) (hidden o) (proto o) (code o).

(** [[Get]] on an object: own property first, then the delegation chain. *)
Fixpoint chain_get (fuel : nat) (h : Heap) (l : loc) (name : string) : Value :=
  match fuel with
  | 0 => VUndef
  | S fuel' =>
      match h !! l with
      | None => VUndef
      | Some o =>
          match props o !! name with
          | Some v => v
          | None =>
              match proto o with
              | Some p => if (p <? l)%nat then chain_get fuel' h p name else VUndef
              | None => VUndef
              end
          end
      end
  end.

Definition lookup_prop (h : Heap) (l : loc) (name : string) : Value :=
  chain_get (S l) h l name.

(** [[HasProperty]]: the first object of the chain that defines [name]
    answers, also when the value it holds is [undefined]. *)
Fixpoint chain_has (fuel : nat) (h : Heap) (l : loc) (name : string) : bool :=
  match fuel with
  | 0 => false
  | S fuel' =>
      match h !! l with
      | None => false
      | Some o =>
          match props o !! name with
          | Some _ => true
          | None =>
              match proto o with
              | Some p => if (p <? l)%nat then chain_has fuel' h p name else false
              | None => false
              end
          end
      end
  end.

(** [[HasOwnProperty]] *)
Definition has_own (h : Heap) (l : loc) (name : string) : bool :=
  match h !! l with
  | Some o => match props o !! name with Some _ => true | None => false end
  | None => false
  end.

(** The enumerable own properties of an object, that is [Object.keys]. *)
Definition ownKeys (h : Heap) (o : Value) : list string :=
  match o with
  | VObj l | VFun l =>
      match h !! l with
      | Some ob =>
          filter (fun name => name ∉ hidden ob) (map_to_list (props ob)).*1
      | None => []
      end
  | _ => []
  end.

(** The names [for (name in o)] visits: the enumerable own properties, then
    the enumerable properties of the chain that no own property, enumerable
    or not, shadows. *)
Fixpoint chain_keys (fuel : nat) (h : Heap) (l : loc) : list string :=
  match fuel with
  | 0 => []
  | S fuel' =>
      match h !! l with
      | None => []
      | Some ob =>
          ownKeys h (VObj l)
          ++ filter (fun name => props ob !! name = None)
               match proto ob with
               | Some p => if (p <? l)%nat then chain_keys fuel' h p else []
               | None => []
               end
      end
  end.

Definition forInKeys (h : Heap) (o : Value) : list string :=
  match o with
  | VObj l | VFun l => chain_keys (S l) h l
  | _ => []
  end.

(** ** A state and exception monad for the library's own functions *)

Inductive Res (A : Type) : Type :=
| Ok (a : A) (h : Heap)
| Raise (e : Exn) (h : Heap).
Arguments Ok {A} a h.
Arguments Raise {A} e h.

Definition M (A : Type) : Type := Heap -> Res A.

Definition ret {A} (a : A) : M A := fun h => Ok a h.
Definition raise {A} (e : Exn) : M A := fun h => Raise e h.
Definition bind {A B} (m : M A) (f : A -> M B) : M B :=
  fun h => match m h with
           | Ok a h' => f a h'
           | Raise e h' => Raise e h'
           end.
Definition heap_now : M Heap := fun h => Ok h h.

Declare Scope js_scope.
Delimit Scope js_scope with js.
Notation "x <- m ;; k" := (bind m (fun x => k))
  (at level 100, m at next level, right associativity) : js_scope.
Notation "m ;;; k" := (bind m (fun _ => k))
  (at level 100, right associativity) : js_scope.
Local Open Scope js_scope.

Definition res_heap {A} (r : Res A) : Heap :=
  match r with Ok _ h => h | Raise _ h => h end.

(** [o.name] *)
Definition getProp (o : Value) (name : string) : M Value :=
  match o with
  | VUndef | VNull => raise (TypeError "cannot read properties of undefined or null")
  | VObj l | VFun l => fun h => Ok (lookup_prop h l name) h
  | _ => ret VUndef
  end.

(** The properties of a function that cannot be assigned: [name] and
    [length] are not writable, [caller] and [arguments] throw on a strict
    function, and every function of the library and of a class is strict.
    Their values are not part of the model. *)
Definition read_only_names : list string := ["name"; "length"; "caller"; "arguments"].

Definition read_only (ob : Obj) (name : string) : bool :=
  match code ob with
  | Some _ => existsb (String.eqb name) read_only_names
  | None => false
  end.

(** [o.name = v] in strict mode: assigning to a property of a primitive or
    to a read-only property is a TypeError there. *)
Definition setProp (o : Value) (name : string) (v : Value) : M unit :=
  match o with
  | VObj l | VFun l =>
      fun h => match h !! l with
               | Some ob =>
                   if read_only ob name
                   then Raise (TypeError "cannot assign to a read-only property") h
                   else Ok tt (<[l := set_own name v ob]> h)
               | None => Raise (TypeError "cannot set properties of a missing object") h
               end
  | VUndef | VNull => raise (TypeError "cannot set properties of undefined or null")
  | _ => raise (TypeError "cannot create property on a primitive")
  end.

(** The answer to a question; none writes the heap. *)
Definition query (q : Query) : M Answer :=
  match q with
  | QHasOwn o name =>
      match o with
      | VUndef | VNull =>
          raise (TypeError "cannot convert undefined or null to object")
      | VObj l | VFun l => fun h => Ok (ABool (has_own h l name)) h
      | _ => ret (ABool false)
      end
  | QIn o name =>
      match o with
      | VObj l | VFun l => fun h => Ok (ABool (chain_has (S l) h l name)) h
      | _ => raise (TypeError "cannot use 'in' on a value that is no object")
      end
  | QKeys o =>
      match o with
      | VUndef | VNull =>
          raise (TypeError "cannot convert undefined or null to object")
      | _ => fun h => Ok (AKeys (ownKeys h o)) h
      end
  | QForIn o => fun h => Ok (AKeys (forInKeys h o)) h
  end.

Definition alloc (o : Obj) : M loc := fun h => Ok (length h) (h ++ [o]).

(** A function expression: the function object and its default prototype,
    which points back through [constructor]. *)
Definition newFunction (c : Callable) : M Value :=
  fun h =>
    let f := length h in
    let p := S f in
    Ok (VFun f)
       (h ++ [mkObj {["prototype" := VObj p]} ["prototype"] (Some FunctionPrototype) (Some c);
              mkObj {["constructor" := VFun f]} ["constructor"] (Some ObjectPrototype) None]).

(** The callable behind a value, if it has one. *)
Definition callee (h : Heap) (f : Value) : option Callable :=
  match f with
  | VFun l => match h !! l with Some o => code o | None => None end
  | _ => None
  end.

(** ** Running a body *)

(** [fuel] bounds the depth of nested calls; [None] is fuel exhausted. *)
Fixpoint run (fuel : nat) : Prog -> Heap -> option (Res Value) :=
  match fuel with
  | 0 => fun _ _ => None
  | S fuel' =>
      fix go (p : Prog) (h : Heap) {struct p} : option (Res Value) :=
        match p with
        | PRet v => Some (Ok v h)
        | PThrow e => Some (Raise e h)
        | PGet o name k =>
            match getProp o name h with
            | Ok v h' => go (k v) h'
            | Raise e h' => Some (Raise e h')
            end
        | PSet o name v k =>
            match setProp o name v h with
            | Ok _ h' => go k h'
            | Raise e h' => Some (Raise e h')
            end
        | PCall f this args k =>
            match callee h f with
            | None => Some (Raise (TypeError "not a function") h)
            | Some c =>
                match run fuel' (body c this args) h with
                | Some (Ok v h') => go (k v) h'
                | Some (Raise e h') => Some (Raise e h')
                | None => None
                end
            end
        | PAsk q k =>
            match query q h with
            | Ok a h' => go (k a) h'
            | Raise e h' => Some (Raise e h')
            end
        end
  end.

(** ** The helper functions of [inheritance.js] *)

(** [Helper.isFn] *)
Definition isFn (o : Value) : bool := String.eqb (typeof o) "function".

(** [fn.toString()] of a function: its source text. *)
Definition toString (h : Heap) (fn : Value) : string :=
  match callee h fn with
  | Some c => src c
  | None => ""
  end.

(** [s.indexOf(t)] *)
Definition indexOf (s t : string) : Z :=
  match String.index 0 t s with
  | Some i => Z.of_nat i
  | None => (-1)%Z
  end.

(** [Helper.hasFnSuperCall] *)
Definition hasFnSuperCall (h : Heap) (fn : Value) : bool :=
  isFn fn && negb (indexOf (toString h fn) ".super" =? -1)%Z.

(** The closure [Helper.wrap] returns, with [fnName], [fn] and [__super__]
    captured. *)
Definition wrap_body (fnName : string) (fn __super__ : Value)
  : Value -> list Value -> Prog :=
  fun this arguments =>
    PGet this "super" (fun currentSuperMethod =>
    PGet __super__ fnName (fun parentMethod =>
    PSet this "super" parentMethod (
    PCall fn this arguments (fun result =>
    PSet this "super" currentSuperMethod (
    PRet result))))).

(** The text of that closure (line breaks written as spaces). *)
Definition wrap_src : string :=
  "function () { var currentSuperMethod = this.super; this.super = __super__[fnName]; var result = fn.apply(this, arguments); this.super = currentSuperMethod; return result; }".

(** [Helper.wrap] *)
Definition wrap (fnName : string) (fn __super__ : Value) : M Value :=
  newFunction (mkCallable wrap_src (wrap_body fnName fn __super__)).

(** [Helper.createObject], that is [Object.create]. *)
Definition createObject (prototype : Value) : M Value :=
  match prototype with
  | VObj p | VFun p => l <- alloc (mkObj ∅ [] (Some p) None) ;; ret (VObj l)
  | VNull => l <- alloc (mkObj ∅ [] None None) ;; ret (VObj l)
  | _ => raise (TypeError "Object prototype may only be an Object or null")
  end.

(** The object [Helper.parseArgs] returns; an absent field reads as
    [undefined].  [pprops] is its field [props]. *)
Record ParsedArgs : Type := mkParsedArgs {
  parent : Value;
  pprops : Value;
  staticProps : Value
}.

Definition arg (args : list Value) (i : nat) : Value := nth i args VUndef.

(** [Helper.parseArgs]: three [if] statements in sequence, each on the
    number of arguments. *)
Definition parseArgs (args : list Value) : Exn + ParsedArgs :=
  let parsedArgs := mkParsedArgs VUndef VUndef VUndef in
  let step1 :=
    if (length args =? 1)%nat then
      if String.eqb (typeof (arg args 0)) "function" then
        inr (mkParsedArgs (arg args 0) (pprops parsedArgs) (staticProps parsedArgs))
      else if String.eqb (typeof (arg args 0)) "object" then
        inr (mkParsedArgs (parent parsedArgs) (arg args 0) (staticProps parsedArgs))
      else inl (TypeError "Invalid arguments")
    else inr parsedArgs in
  match step1 with
  | inl e => inl e
  | inr parsedArgs =>
      let step2 :=
        if (length args =? 2)%nat then
          if String.eqb (typeof (arg args 0)) "function"
             && String.eqb (typeof (arg args 1)) "object" then
            inr (mkParsedArgs (arg args 0) (arg args 1) (staticProps parsedArgs))
          else if String.eqb (typeof (arg args 0)) "object"
                  && String.eqb (typeof (arg args 1)) "object" then
            inr (mkParsedArgs (parent parsedArgs) (arg args 0) (arg args 1))
          else inl (TypeError "Invalid arguments")
        else inr parsedArgs in
      match step2 with
      | inl e => inl e
      | inr parsedArgs =>
          if (3 <=? length args)%nat then
            if negb (String.eqb (typeof (arg args 0)) "function")
               || negb (String.eqb (typeof (arg args 1)) "object")
               || negb (String.eqb (typeof (arg args 2)) "object") then
              inl (TypeError "Invalid arguments")
            else inr (mkParsedArgs (arg args 0) (arg args 1) (arg args 2))
          else inr parsedArgs
      end
  end.

(** [Helper.inherit] *)
Definition inherit (parent child : Value) : M Value :=
  pp <- getProp parent "prototype" ;;
  o <- createObject pp ;;
  setProp child "prototype" o ;;;
  cp <- getProp child "prototype" ;;
  setProp cp "constructor" child ;;;
  pp' <- getProp parent "prototype" ;;
  setProp child "__super__" pp' ;;;
  ret child.

(** The text of the builtin [Object.prototype.hasOwnProperty], by which it
    is told from a function of the program: no function of a program prints
    as native code under that name. *)
Definition native_hasOwnProperty : string :=
  "function hasOwnProperty() { [native code] }".

(** [props.hasOwnProperty(name)], line 33: a method call on the member
    set, so the method is looked up there.  The builtin answers the own
    property test; a value that is no function, [undefined] included, makes
    the call a TypeError.  A function the program put under that name would
    be called here; running it is outside this model, which stops with an
    error of its own. *)
Definition hasOwnProperty (props0 : Value) (name : string) : M bool :=
  f <- getProp props0 "hasOwnProperty" ;;
  h <- heap_now ;;
  match callee h f with
  | Some c =>
      if String.eqb (src c) native_hasOwnProperty
      then ret (match props0 with
                | VObj l | VFun l => has_own h l name
                | _ => false
                end)
      else raise (JsError "not modelled: hasOwnProperty defined by the program")
  | None => raise (TypeError "props.hasOwnProperty is not a function")
  end.

(** The body of the [if] of line 33; [&&] evaluates its right operand only
    when the left one is truthy. *)
Definition extend_member (obj props0 __super__ : Value) (name : string) : M unit :=
  let direct := (v <- getProp props0 name ;; setProp obj name v) in
  let wrapped :=
    (v <- getProp props0 name ;;
     w <- wrap name v __super__ ;;
     setProp obj name w) in
  if truthy __super__ then
    v <- getProp props0 name ;;
    h <- heap_now ;;
    if hasFnSuperCall h v then
      cur <- getProp obj name ;;
      if isFn cur then wrapped else direct
    else direct
  else direct.

(** One round of the loop of [Helper.extend]. *)
Definition extend_visit (obj props0 __super__ : Value) (name : string) : M unit :=
  mine <- hasOwnProperty props0 name ;;
  if mine then extend_member obj props0 __super__ name else ret tt.

Fixpoint extend_loop (obj props0 __super__ : Value) (names : list string) : M unit :=
  match names with
  | [] => ret tt
  | name :: rest =>
      extend_visit obj props0 __super__ name ;;;
      extend_loop obj props0 __super__ rest
  end.

(** [Helper.extend]: the loop runs over the names [for ... in] finds in the
    member set when it starts; the body writes the target only. *)
Definition extend (obj props0 __super__ : Value) : M Value :=
  h <- heap_now ;;
  extend_loop obj props0 __super__ (forInKeys h props0) ;;;
  ret obj.

(** ** [Class.create] *)

(** The constructor every class is:
    [Helper.isFn(this.init) && this.init.apply(this, arguments)]. *)
Definition Class_body : Value -> list Value -> Prog :=
  fun this arguments =>
    PGet this "init" (fun i =>
    if isFn i then
      PGet this "init" (fun init => PCall init this arguments (fun _ => PRet VUndef))
    else PRet VUndef).

Definition Class_src : string :=
  "function () { // call the 'init' function which is used as a constructor Helper.isFn(this.init) && this.init.apply(this, arguments); }".

(** [function () {}] *)
Definition empty_body : Value -> list Value -> Prog := fun _ _ => PRet VUndef.
Definition empty_src : string := "function () {}".

(** [c && m], as a statement. *)
Definition when (c : Value) (m : M Value) : M Value :=
  if truthy c then m else ret c.

(** The body of [create] once the arguments are parsed. *)
Definition create_from (args : ParsedArgs) : M Value :=
  let parent := parent args in
  let props0 := pprops args in
  let staticProps := staticProps args in
  Class <- newFunction (mkCallable Class_src Class_body) ;;
  cp <- getProp Class "prototype" ;;
  init <- newFunction (mkCallable empty_src empty_body) ;;
  setProp cp "init" init ;;;
  when parent (inherit parent Class) ;;;
  when props0 (cp' <- getProp Class "prototype" ;;
               sup <- getProp Class "__super__" ;;
               extend cp' props0 sup) ;;;
  when staticProps (extend Class staticProps VUndef) ;;;
  ret Class.

Definition create (arguments : list Value) : M Value :=
  match parseArgs arguments with
  | inl e => raise e
  | inr args => create_from args
  end.

(** [new C(...args)]: the fresh object delegates to [C.prototype] when that
    is an object and to [Object.prototype] otherwise; the constructor's
    result replaces it only when it is an object. *)
Definition construct (fuel : nat) (C : Value) (args : list Value) (h : Heap)
  : option (Res Value) :=
  match callee h C with
  | None => Some (Raise (TypeError "not a constructor") h)
  | Some c =>
      match getProp C "prototype" h with
      | Raise e h' => Some (Raise e h')
      | Ok pv h0 =>
          let p := match pv with
                   | VObj p | VFun p => p
                   | _ => ObjectPrototype
                   end in
          let this := VObj (length h0) in
          match run fuel (body c this args) (h0 ++ [mkObj ∅ [] (Some p) None]) with
          | Some (Ok v h') =>
              Some (Ok (match v with VObj _ | VFun _ => v | _ => this end) h')
          | other => other
          end
      end
  end.

(** [o.name(...args)] *)
Definition invoke (fuel : nat) (o : Value) (name : string) (args : list Value)
  (h : Heap) : option (Res Value) :=
  run fuel (PGet o name (fun f => PCall f o args PRet)) h.

(** ** Vocabulary of the statements *)

(** The location behind a reference. *)
Definition loc_of (v : Value) : option loc :=
  match v with
  | VObj l | VFun l => Some l
  | _ => None
  end.

(** A reference is allocated; a primitive always is. *)
Definition val_ok (h : Heap) (v : Value) : Prop :=
  match loc_of v with
  | Some l => l < length h
  | None => True
  end.

(** The own property [name] of the object at [l]. *)
Definition own (h : Heap) (l : loc) (name : string) : option Value :=
  h !! l ≫= fun o => props o !! name.

(** The classification of section 4.1 of the specification, written from its
    words: a callable is a value whose type test answers [function], a
    mapping one whose type test answers [object]. *)
Definition callable (v : Value) : bool := String.eqb (typeof v) "function".
Definition mapping (v : Value) : bool := String.eqb (typeof v) "object".

Definition classify_spec (args : list Value) : Exn + ParsedArgs :=
  match args with
  | [] => inr (mkParsedArgs VUndef VUndef VUndef)
  | [a] =>
      if callable a then inr (mkParsedArgs a VUndef VUndef)
      else if mapping a then inr (mkParsedArgs VUndef a VUndef)
      else inl (TypeError "Invalid arguments")
  | [a; b] =>
      if callable a && mapping b then inr (mkParsedArgs a b VUndef)
      else if mapping a && mapping b then inr (mkParsedArgs VUndef a b)
      else inl (TypeError "Invalid arguments")
  | a :: b :: c :: _ =>
      if callable a && mapping b && mapping c then inr (mkParsedArgs a b c)
      else inl (TypeError "Invalid arguments")
  end.

(** A question the super slot of some object can change the answer to: a
    test for the name [super], or an enumeration, which lists the slot once
    a wrapper has assigned it. *)
Definition asks_about_super (q : Query) : bool :=
  match q with
  | QHasOwn _ name | QIn _ name => String.eqb name "super"
  | QKeys _ | QForIn _ => true
  end.

(** [reads_no_super fuel p h]: running [p] from [h] never observes a super
    slot, neither itself nor in the bodies it calls: it reads no property
    named [super], tests for none, and enumerates no object. *)
Fixpoint reads_no_super (fuel : nat) : Prog -> Heap -> bool :=
  match fuel with
  | 0 => fun _ _ => true
  | S fuel' =>
      fix go (p : Prog) (h : Heap) {struct p} : bool :=
        match p with
        | PRet _ | PThrow _ => true
        | PGet o name k =>
            negb (String.eqb name "super")
            && match getProp o name h with
               | Ok v h' => go (k v) h'
               | Raise _ _ => true
               end
        | PSet o name v k =>
            match setProp o name v h with
            | Ok _ h' => go k h'
            | Raise _ _ => true
            end
        | PCall f this args k =>
            match callee h f with
            | None => true
            | Some c =>
                reads_no_super fuel' (body c this args) h
                && match run fuel' (body c this args) h with
                   | Some (Ok v h') => go (k v) h'
                   | _ => true
                   end
            end
        | PAsk q k =>
            negb (asks_about_super q)
            && match query q h with
               | Ok a h' => go (k a) h'
               | Raise _ _ => true
               end
        end
  end.




(** What a lookup of [name] sees of an object. *)
Definition view (name : string) (o : Obj) : option Value * option loc :=
  (props o !! name, proto o).

(** The four objects [create] allocates for a class: the constructor, its
    member table holding the default [init], the default [init] and the
    prototype that function expression brings along. *)
Definition class_objects (f : loc) : Heap :=
  [mkObj {["prototype" := VObj (f + 1)]} ["prototype"] (Some FunctionPrototype)
     (Some (mkCallable Class_src Class_body));
   mkObj (<["init" := VFun (f + 2)]> {["constructor" := VFun f]}) ["constructor"]
     (Some ObjectPrototype) None;
   mkObj {["prototype" := VObj (f + 3)]} ["prototype"] (Some FunctionPrototype)
     (Some (mkCallable empty_src empty_body));
   mkObj {["constructor" := VFun (f + 2)]} ["constructor"] (Some ObjectPrototype) None].

(** A fresh instance delegating to the member table at [p]. *)
Definition instance_of (p : loc) : Obj := mkObj ∅ [] (Some p) None.

(** [sup[name]] for a truthy [sup]: what the wrapper binds the super slot to. *)
Definition parent_method (h : Heap) (sup : Value) (name : string) : Value :=
  match sup with
  | VObj s | VFun s => lookup_prop h s name
  | _ => VUndef
  end.

(** What a wrapped call does, for the wrapper of [fn] under [fnName] with
    parent table [sup], called with fuel [S n] on the instance at [l], an
    object [o] of the heap [h], where [fn] has the callable [c]:
    the original callable runs in the heap [bound], in which the slot holds
    the parent's implementation; when it returns, the wrapper returns its
    result from the heap where the slot is assigned the value it had in [h];
    when it throws, the wrapper throws from the heap the callable left. *)
Definition wrap_contract (n : nat) (fnName : string) (fn sup : Value) (l : loc)
  (args : list Value) (h : Heap) (o : Obj) (c : Callable) : Prop :=
  let bound := <[l := set_own "super" (parent_method h sup fnName) o]> h in
  let wrapped := run (S n) (wrap_body fnName fn sup (VObj l) args) h in
  lookup_prop bound l "super" = parent_method h sup fnName /\
  match run n (body c (VObj l) args) bound with
  | Some (Ok v h2) =>
      exists o2, h2 !! l = Some o2 /\
        wrapped
        = Some (Ok v (<[l := set_own "super" (lookup_prop h l "super") o2]> h2)) /\
        lookup_prop (<[l := set_own "super" (lookup_prop h l "super") o2]> h2) l "super"
        = lookup_prop h l "super"
  | Some (Raise e h2) => wrapped = Some (Raise e h2)
  | None => wrapped = None
  end.

(** The two objects a function expression with callable [c] allocates at
    [f] and [f + 1]. *)
Definition function_objects (c : Callable) (f : loc) : Heap :=
  [mkObj {["prototype" := VObj (f + 1)]} ["prototype"] (Some FunctionPrototype) (Some c);
   mkObj {["constructor" := VFun f]} ["constructor"] (Some ObjectPrototype) None].

(** The test of [Helper.extend] for the member [name] with value [v], read
    in the heap [h] the installation starts from; [obj] is the location of
    the target. *)
Definition wraps (h : Heap) (obj : loc) (sup v : Value) (name : string) : bool :=
  truthy sup && hasFnSuperCall h v && isFn (lookup_prop h obj name).

(** What the target holds under [name] once the installation that started
    in [h] has ended in [hf]: a wrapper of [v] made by this installation when
    the test holds, [v] itself otherwise. *)
Definition installed (h hf : Heap) (obj : loc) (sup : Value) (name : string)
  (v : Value) : Prop :=
  if wraps h obj sup v name then
    exists w, own hf obj name = Some (VFun w) /\ length h <= w /\
              callee hf (VFun w) = Some (mkCallable wrap_src (wrap_body name v sup))
  else own hf obj name = Some v.

(** The member set at [pl] finds the builtin under [hasOwnProperty], as an
    object literal does through [Object.prototype]. *)
Definition calls_builtin (h : Heap) (pl : loc) : bool :=
  match callee h (lookup_prop h pl "hasOwnProperty") with
  | Some c => String.eqb (src c) native_hasOwnProperty
  | None => false
  end.

(** A member set [Helper.extend] takes in as the specification describes:
    its [hasOwnProperty] is the builtin, and it has no member named
    [__proto__], a name whose assignment goes through the accessor of
    [Object.prototype] and re-links the target instead of giving it a
    property. *)
Definition ordinary_name (name : string) : bool :=
  negb (String.eqb name "__proto__").

Definition ordinary_members (h : Heap) (pl : loc) : bool :=
  calls_builtin h pl && forallb ordinary_name (ownKeys h (VObj pl)).

(** No member of the set at [pl] has a name that is read-only on the target
    [oo]: none at all when the target is no function. *)
Definition assignable_members (h : Heap) (pl : loc) (oo : Obj) : bool :=
  forallb (fun name => negb (read_only oo name)) (ownKeys h (VObj pl)).

(** The assignment [o[name] = x] is one of a property: [o] is an object of
    the heap, and the name is neither read-only on it nor [__proto__]. *)
Definition assignable (h : Heap) (o : Value) (name : string) : bool :=
  match o with
  | VObj l | VFun l =>
      match h !! l with
      | Some ob => negb (read_only ob name) && ordinary_name name
      | None => false
      end
  | _ => false
  end.







(** Every enumerable own member of [po] is on the target as it is. *)
Definition installs_directly (hf : Heap) (obj : loc) (po : Obj) : Prop :=
  forall name v, props po !! name = Some v -> name ∉ hidden po ->
    own hf obj name = Some v.

(** The heap [hf] an installation of the members [names] of the object [po]
    leaves, started in [h] on the target [oo] at [obj]: nothing but wrappers
    is allocated (nothing at all without a parent table), no other object of
    [h] is written, the target keeps its delegation link and its other
    properties, and every member is installed as the test decides. *)
Definition extended (h hf : Heap) (obj : loc) (oo po : Obj) (sup : Value)
  (names : list string) : Prop :=
  length h <= length hf /\
  (truthy sup = false -> length hf = length h) /\
  (forall l, l < length h -> l <> obj -> hf !! l = h !! l) /\
  (exists o', hf !! obj = Some o' /\ proto o' = proto oo /\ code o' = code oo /\
              hidden o' = hidden oo /\
              forall name, name ∉ names -> props o' !! name = props oo !! name) /\
  (forall name v, name ∈ names -> props po !! name = Some v ->
                  installed h hf obj sup name v).

#[global] Instance val_ok_dec (h : Heap) (v : Value) : Decision (val_ok h v).
Proof. unfold val_ok. destruct (loc_of v); apply _. Defined.

(** The member table [Helper.inherit] gives the child [c]: it delegates to
    the parent's table at [t] and names the child as its constructor. *)
Definition child_table (c t : loc) : Obj :=
  mkObj (<["constructor" := VFun c]> ∅) [] (Some t) None.

(** The child after [Helper.inherit]: the new table at [table], and the
    parent's table [pp] under [__super__]. *)
Definition linked (co : Obj) (table : loc) (pp : Value) : Obj :=
  set_own "__super__" pp (set_own "prototype" (VObj table) co).

(** The constructor object of a class allocated at [f], as [create] first
    makes it, and the heap of a subclass of the class whose table is [pp],
    at [t], once linked: the four objects of the class, the new member table
    after them, and the constructor pointing to both tables. *)
Definition class_fn (f : loc) : Obj :=
  mkObj {["prototype" := VObj (f + 1)]} ["prototype"] (Some FunctionPrototype)
    (Some (mkCallable Class_src Class_body)).

Definition subclass_heap (h : Heap) (pp : Value) (t : loc) : Heap :=
  <[length h := linked (class_fn (length h)) (length h + 4) pp]>
    (h ++ class_objects (length h) ++ [child_table (length h) t]).

(** The arguments of [create] for a subclass of [p]: the parent alone, or
    the parent and the instance members at [pl]. *)
Definition subclass_args (p : loc) (members : option loc) : list Value :=
  match members with
  | Some pl => [VFun p; VObj pl]
  | None => [VFun p]
  end.

(** The instance members, an ordinary member set, define no [init] (and
    name allocated values). *)
Definition omits_init (h : Heap) (members : option loc) : Prop :=
  match members with
  | Some pl =>
      exists po, h !! pl = Some po /\ props po !! "init" = None /\
                 ordinary_members h pl = true /\
                 forall name v, props po !! name = Some v -> val_ok h v
  | None => True
  end.

(** What [new C(...args)] does in [hf] for a class [C] whose member table,
    at [table], finds [init] as initializer: it allocates the instance and,
    when [init] is callable, calls it on the instance with the arguments;
    the instance is the result. *)
Definition constructs_with (fuel : nat) (C : Value) (args : list Value)
  (hf : Heap) (table : loc) (init : Value) : Prop :=
  let this := VObj (length hf) in
  let h1 := hf ++ [instance_of table] in
  construct fuel C args hf =
  if isFn init then
    match run fuel (PCall init this args (fun _ => PRet VUndef)) h1 with
    | Some (Ok _ h') => Some (Ok this h')
    | other => other
    end
  else Some (Ok this h1).

(** A root class made in [h]: [create()] returns the constructor allocated
    at the end of [h]; its member table holds the default [init], the empty
    function; [new] returns a fresh instance delegating to that table and
    changes nothing else. *)
Definition root_class (h : Heap) : Prop :=
  let hf := h ++ class_objects (length h) in
  create [] h = Ok (VFun (length h)) hf /\
  lookup_prop hf (length h + 1) "init" = VFun (length h + 2) /\
  callee hf (VFun (length h + 2)) = Some (mkCallable empty_src empty_body) /\
  forall n args,
    construct (S (S n)) (VFun (length h)) args hf
    = Some (Ok (VObj (length h + 4)) (hf ++ [instance_of (length h + 1)])).

(** A subclass of [p], whose table is at [t], made in [h] from members that
    define no [init]: its member table, at [length h + 4], finds as [init]
    what the parent's table finds; [new] allocates the instance and calls
    that ancestor's [init] on it; when that is an empty function, [new]
    returns the instance and changes nothing else. *)
Definition subclass_without_init (p : loc) (members : option loc) (h : Heap)
  (t : loc) : Prop :=
  exists hf,
    create (subclass_args p members) h = Ok (VFun (length h)) hf /\
    lookup_prop hf (length h) "prototype" = VObj (length h + 4) /\
    lookup_prop hf (length h + 4) "init" = lookup_prop h t "init" /\
    (forall n args,
       constructs_with (S n) (VFun (length h)) args hf (length h + 4)
         (lookup_prop h t "init")) /\
    (forall n args ci,
       callee h (lookup_prop h t "init") = Some ci -> body ci = empty_body ->
       construct (S (S n)) (VFun (length h)) args hf
       = Some (Ok (VObj (length hf)) (hf ++ [instance_of (length h + 4)]))).

(** ** Scenarios *)

(** The key a value names a property by: a string is the key itself, another
    primitive prints as JavaScript prints it, an object prints as objects do
    by default. *)
Definition to_key (v : Value) : string :=
  match v with
  | VStr s => s
  | VNum z => pretty z
  | VBool true => "true"
  | VBool false => "false"
  | VUndef => "undefined"
  | VNull => "null"
  | VObj _ | VFun _ => "[object Object]"
  end.

(** The builtin [Object.prototype.hasOwnProperty]. *)
Definition hasOwnProperty_builtin : Callable :=
  mkCallable native_hasOwnProperty
    (fun this arguments =>
       PAsk (QHasOwn this (to_key (arg arguments 0))) (fun a =>
       PRet (match a with ABool b => VBool b | AKeys _ => VUndef end))).

(** The heap a program starts from: [Object.prototype], which holds the one
    builtin member the library finds by a lookup, [Function.prototype], and
    that builtin.  The other builtin members are left out; a statement about
    every heap covers the heaps that hold them. *)
Definition heap0 : Heap :=
  [mkObj {["hasOwnProperty" := VFun 2]} ["hasOwnProperty"] None None;
   mkObj ∅ [] (Some ObjectPrototype) None;
   mkObj ∅ [] (Some FunctionPrototype) (Some hasOwnProperty_builtin)].

(** An object literal. *)
Definition objectLiteral (members : list (string * Value)) : M Value :=
  l <- alloc (mkObj (list_to_map members) [] (Some ObjectPrototype) None) ;;
  ret (VObj l).

(** [s + v] for a string [s] and a primitive [v] that is a string; the
    scenarios add nothing else. *)
Definition str_plus (s : string) (v : Value) : Value :=
  match v with
  | VStr t => VStr (String.append s t)
  | _ => VUndef
  end.

Definition res_value (r : option (Res Value)) : option Value :=
  match r with
  | Some (Ok v _) => Some v
  | _ => None
  end.

Module TwoLevel.

(** [greet: function () { return 'A'; }] *)
Definition greetA : Callable :=
  mkCallable "function () { return 'A'; }" (fun _ _ => PRet (VStr "A")).

(** [greet: function () { return 'B:' + this.super(); }] *)
Definition greetB : Callable :=
  mkCallable "function () { return 'B:' + this.super(); }"
    (fun this _ =>
       PGet this "super" (fun s =>
       PCall s this [] (fun r => PRet (str_plus "B:" r)))).

(** [var A = Class.create({greet: ...}); var B = Class.create(A, {greet: ...});] *)
Definition classes : M Value :=
  fA <- newFunction greetA ;;
  membersA <- objectLiteral [("greet", fA)] ;;
  A <- create [membersA] ;;
  fB <- newFunction greetB ;;
  membersB <- objectLiteral [("greet", fB)] ;;
  create [A; membersB].

(** [new B().greet()] *)
Definition greeting (fuel : nat) : option Value :=
  match classes heap0 with
  | Ok B h =>
      match construct fuel B [] h with
      | Some (Ok b h') => res_value (invoke fuel b "greet" [] h')
      | _ => None
      end
  | Raise _ _ => None
  end.

End TwoLevel.

(** [new C()] for the class a script builds from [heap0]: the instance and
    the heap it lives in. *)
Definition instantiate (fuel : nat) (classes : M Value) : option (loc * Heap) :=
  match classes heap0 with
  | Ok C h =>
      match construct fuel C [] h with
      | Some (Ok (VObj l) h') => Some (l, h')
      | _ => None
      end
  | Raise _ _ => None
  end.

Module Throwing.

(** [m: function () { return 'P'; }] *)
Definition mP : Callable :=
  mkCallable "function () { return 'P'; }" (fun _ _ => PRet (VStr "P")).

(** An override that throws before it reaches its super call. *)
Definition mC : Callable :=
  mkCallable
    "function () { if (!this.ready) { throw new Error('not ready'); } return this.super(); }"
    (fun this _ =>
       PGet this "ready" (fun r =>
       if negb (truthy r) then PThrow (JsError "not ready")
       else PGet this "super" (fun s => PCall s this [] PRet))).

(** [var P = Class.create({m: ...}); var C = Class.create(P, {m: ...});] *)
Definition classes : M Value :=
  fP <- newFunction mP ;;
  membersP <- objectLiteral [("m", fP)] ;;
  P <- create [membersP] ;;
  fC <- newFunction mC ;;
  membersC <- objectLiteral [("m", fC)] ;;
  create [P; membersC].

(** [var c = new C(); c.m()]: the super slot of [c] before the call, how
    the call ends, and the slot afterwards. *)
Definition slot_before : option Value :=
  '(c, h) ← instantiate 4 classes; Some (lookup_prop h c "super").

Definition exit : option Exn :=
  '(c, h) ← instantiate 4 classes;
  match invoke 4 (VObj c) "m" [] h with
  | Some (Raise e _) => Some e
  | _ => None
  end.

Definition slot_after : option Value :=
  '(c, h) ← instantiate 4 classes;
  r ← invoke 4 (VObj c) "m" [] h;
  Some (lookup_prop (res_heap r) c "super").

(** [P.prototype.m], the implementation one level up. *)
Definition parent_impl : option Value :=
  match classes heap0 with
  | Ok C h =>
      match getProp C "__super__" h with
      | Ok sup _ => Some (parent_method h sup "m")
      | Raise _ _ => None
      end
  | Raise _ _ => None
  end.

End Throwing.

Module Reentrant.

(** [m: function () { return 'A' + this.n(); }] *)
Definition mA : Callable :=
  mkCallable "function () { return 'A' + this.n(); }"
    (fun this _ =>
       PGet this "n" (fun n => PCall n this [] (fun r => PRet (str_plus "A" r)))).

(** [n: function () { return 'a'; }] *)
Definition nA : Callable :=
  mkCallable "function () { return 'a'; }" (fun _ _ => PRet (VStr "a")).

(** [m: function () { var x = this.super(); return 'B' + x + this.super(); }] *)
Definition mB : Callable :=
  mkCallable "function () { var x = this.super(); return 'B' + x + this.super(); }"
    (fun this _ =>
       PGet this "super" (fun s1 => PCall s1 this [] (fun x =>
       PGet this "super" (fun s2 => PCall s2 this [] (fun y =>
       PRet (match str_plus "B" x with
             | VStr bx => str_plus bx y
             | other => other
             end)))))).

(** [n: function () { return 'b' + this.super(); }] *)
Definition nB : Callable :=
  mkCallable "function () { return 'b' + this.super(); }"
    (fun this _ =>
       PGet this "super" (fun s => PCall s this [] (fun r => PRet (str_plus "b" r)))).

(** [var A = Class.create({m, n}); var B = Class.create(A, {m, n});] *)
Definition classes : M Value :=
  fm <- newFunction mA ;;
  fn <- newFunction nA ;;
  membersA <- objectLiteral [("m", fm); ("n", fn)] ;;
  A <- create [membersA] ;;
  gm <- newFunction mB ;;
  gn <- newFunction nB ;;
  membersB <- objectLiteral [("m", gm); ("n", gn)] ;;
  create [A; membersB].

(** [new B().m()] *)
Definition trace (fuel : nat) : option Value :=
  '(b, h) ← instantiate fuel classes; res_value (invoke fuel (VObj b) "m" [] h).

(** The instance [b = new B()] and the heap it lives in. *)
Definition b : loc := (default (0, []) (instantiate 7 classes)).1.
Definition started : Heap := (default (0, []) (instantiate 7 classes)).2.

(** The table the wrappers of [B] resolve super in, [A.prototype]. *)
Definition tableA : Value :=
  lookup_prop started (default 0 (loc_of (lookup_prop started b "constructor")))
    "__super__".

(** The heap inside the frame of [b.m()]: the wrapper of [m] has bound the
    slot to [A.prototype.m]. *)
Definition in_frame_m : Heap :=
  res_heap (setProp (VObj b) "super" (parent_method started tableA "m") started).

(** The wrapper installed for [n], the callable it wraps, and the heap
    after the nested call [b.n()] made from inside that frame. *)
Definition wrapper_n : loc := default 0 (loc_of (lookup_prop started b "n")).
Definition original_n : Value := VFun 14.
Definition after_n : Heap :=
  match run 3 (wrap_body "n" original_n tableA (VObj b) []) in_frame_m with
  | Some r => res_heap r
  | None => []
  end.

End Reentrant.

Module FalsePositive.

(** [m: function () { return 'P'; }] *)
Definition mP : Callable :=
  mkCallable "function () { return 'P'; }" (fun _ _ => PRet (VStr "P")).

(** An override that mentions the super slot in a comment only. *)
Definition mC : Callable :=
  mkCallable "function () { /* replaces this.super() */ return 'C'; }"
    (fun _ _ => PRet (VStr "C")).

(** [var P = Class.create({m: ...}); var C = Class.create(P, {m: ...});] *)
Definition classes : M Value :=
  fP <- newFunction mP ;;
  membersP <- objectLiteral [("m", fP)] ;;
  P <- create [membersP] ;;
  fC <- newFunction mC ;;
  membersC <- objectLiteral [("m", fC)] ;;
  create [P; membersC].

(** The instance [c = new C()], the heap it lives in, the wrapper [c.m],
    the callable it wraps and the table it resolves super in. *)
Definition c : loc := (default (0, []) (instantiate 4 classes)).1.
Definition started : Heap := (default (0, []) (instantiate 4 classes)).2.
Definition wrapper : Value := lookup_prop started c "m".
Definition original : Value := VFun 10.
Definition tableP : Value :=
  lookup_prop started (default 0 (loc_of (lookup_prop started c "constructor")))
    "__super__".

End FalsePositive.

Module Installing.

(** Members of a parent table and of a class that overrides [greet] with a
    super call, adds [other] and a counter. *)
Definition greet : Callable :=
  mkCallable "function () { return 'P'; }" (fun _ _ => PRet (VStr "P")).

Definition greetOver : Callable :=
  mkCallable "function () { return 'C:' + this.super(); }"
    (fun this _ =>
       PGet this "super" (fun s =>
       PCall s this [] (fun r => PRet (str_plus "C:" r)))).

Definition other : Callable :=
  mkCallable "function () { return this.super; }"
    (fun this _ => PGet this "super" PRet).

(** The parent table, a target delegating to it and the source members. *)
Definition script : M (Value * Value * Value) :=
  f <- newFunction greet ;;
  table <- objectLiteral [("greet", f)] ;;
  target <- createObject table ;;
  g <- newFunction greetOver ;;
  o <- newFunction other ;;
  members <- objectLiteral [("greet", g); ("other", o); ("count", VNum 0)] ;;
  ret (table, target, members).

Definition prepared : Heap := res_heap (script heap0).
Definition table : loc := 5.
Definition target : loc := 6.
Definition members : loc := 11.

End Installing.

Module Statics.

Definition mP : Callable :=
  mkCallable "function () { return 'P'; }" (fun _ _ => PRet (VStr "P")).

(** A static member whose text contains the super-access token. *)
Definition make : Callable :=
  mkCallable "function () { return this.super; }"
    (fun this _ => PGet this "super" PRet).

(** [P = Class.create({m})], the static members, and [C = Class.create(P, {m})]
    before any static member is installed. *)
Definition script : M (Value * Value * Value) :=
  f <- newFunction mP ;;
  membersP <- objectLiteral [("m", f); ("make", f)] ;;
  P <- create [membersP] ;;
  s <- newFunction make ;;
  statics <- objectLiteral [("make", s); ("version", VNum 1)] ;;
  g <- newFunction mP ;;
  membersC <- objectLiteral [("m", g)] ;;
  C <- create [P; membersC] ;;
  ret (P, statics, C).

Definition prepared : Heap := res_heap (script heap0).
Definition statics : loc := 12.
Definition C : loc := 16.

(** [Class.create(P, {m}, statics)], all at once. *)
Definition whole : M Value :=
  f <- newFunction mP ;;
  membersP <- objectLiteral [("m", f); ("make", f)] ;;
  P <- create [membersP] ;;
  s <- newFunction make ;;
  statics <- objectLiteral [("make", s); ("version", VNum 1)] ;;
  g <- newFunction mP ;;
  membersC <- objectLiteral [("m", g)] ;;
  create [P; membersC; statics].

End Statics.

(** The fallback of [Helper.createObject] for an engine without
    [Object.create]:
    [function (prototype) { var F = function () {}; F.prototype = prototype; return new F(); }] *)
Definition createObject_fallback (fuel : nat) (prototype : Value) (h : Heap)
  : option (Res Value) :=
  match (F <- newFunction (mkCallable empty_src empty_body) ;;
         setProp F "prototype" prototype ;;;
         ret F) h with
  | Ok F h1 => construct fuel F [] h1
  | Raise e h1 => Some (Raise e h1)
  end.

(** What the fallback allocates at the end of [h] for the prototype at [p]:
    its helper function [F] with [F.prototype] assigned, the default
    prototype of [F], and the new object. *)
Definition fallback_objects (f : loc) (prototype : Value) (p : loc) : Heap :=
  [mkObj {["prototype" := prototype]} ["prototype"] (Some FunctionPrototype)
     (Some (mkCallable empty_src empty_body));
   mkObj {["constructor" := VFun f]} ["constructor"] (Some ObjectPrototype) None;
   instance_of p].



Module Returning.

(** An initializer that returns an object:
    [init: function (x) { this.x = x; return this.constructor; }] *)
Definition init : Callable :=
  mkCallable "function (x) { this.x = x; return this.constructor; }"
    (fun this arguments =>
       PSet this "x" (arg arguments 0) (PGet this "constructor" PRet)).

(** [var C = Class.create({init: ...});] *)
Definition classes : M Value :=
  f <- newFunction init ;;
  members <- objectLiteral [("init", f)] ;;
  create [members].

Definition made : Heap := res_heap (classes heap0).
Definition C : loc := 6.
Definition table : loc := 7.

(** The heap after [new C(1)]. *)
Definition after : Heap :=
  match construct 2 (VFun C) [VNum 1] made with
  | Some r => res_heap r
  | None => []
  end.

End Returning.


(** The subclass [create(p, members)] made in [h], for the members at [pl]
    and the parent's table [pp] at [t]: the class points to its new member
    table and to the parent's table; from the new table, every name the
    members do not define reads as it reads from the parent's table, except
    [constructor], which is the class. *)
Definition inherits_by_delegation (p pl : loc) (h : Heap) (pp : Value) (t : loc)
  : Prop :=
  exists hf,
    create [VFun p; VObj pl] h = Ok (VFun (length h)) hf /\
    lookup_prop hf (length h) "prototype" = VObj (length h + 4) /\
    lookup_prop hf (length h) "__super__" = pp /\
    (forall name, name ∉ ownKeys h (VObj pl) -> name <> "constructor" ->
       lookup_prop hf (length h + 4) name = lookup_prop h t name) /\
    ("constructor" ∉ ownKeys h (VObj pl) ->
       lookup_prop hf (length h + 4) "constructor" = VFun (length h)).

(** After that [create], the assignment [pp[name] = x] of a property of the
    parent's table succeeds and is read back through the subclass's table,
    for every name the members do not define. *)
Definition sees_later_parent_members (p pl : loc) (h : Heap) (pp : Value) : Prop :=
  exists hf,
    create [VFun p; VObj pl] h = Ok (VFun (length h)) hf /\
    forall name x, name ∉ ownKeys h (VObj pl) -> name <> "constructor" ->
      assignable hf pp name = true ->
      exists h', setProp pp name x hf = Ok tt h' /\
                 lookup_prop h' (length h + 4) name = x.


(** The root class [create(members)] made in [h], for the members at [pl]:
    no wrapper is allocated, every member is installed in the member table
    as it is, and the default [init] stays unless the members define one. *)
Definition root_members_direct (pl : loc) (h : Heap) (po : Obj) : Prop :=
  exists hf,
    create [VObj pl] h = Ok (VFun (length h)) hf /\
    length hf = length h + 4 /\
    installs_directly hf (length h + 1) po /\
    ((props po !! "init" = None \/ "init" ∈ hidden po) ->
       own hf (length h + 1) "init" = Some (VFun (length h + 2))).

Module Overriding.

(** A root class [P] with [greet], and the members of a subclass before it
    is created: [greet] overrides and calls super, [other] mentions the slot
    but overrides nothing, [count] is a number. *)
Definition script : M Value :=
  f <- newFunction Installing.greet ;;
  membersP <- objectLiteral [("greet", f)] ;;
  P <- create [membersP] ;;
  g <- newFunction Installing.greetOver ;;
  o <- newFunction Installing.other ;;
  objectLiteral [("greet", g); ("other", o); ("count", VNum 0)].

Definition prepared : Heap := res_heap (script heap0).
Definition P : loc := 6.
Definition tableP : loc := 7.
Definition members : loc := 14.

End Overriding.

(** The subclass [create(p, members)] made in [h] when [p.prototype] is
    [null]: the new member table delegates to nothing, [__super__] is
    [null], no wrapper is allocated and every member is installed as it is;
    a name the members do not define is undefined on the table, except
    [constructor]. *)
Definition inherits_nothing (p pl : loc) (h : Heap) (po : Obj) : Prop :=
  exists hf,
    create [VFun p; VObj pl] h = Ok (VFun (length h)) hf /\
    length hf = length h + 5 /\
    lookup_prop hf (length h) "__super__" = VNull /\
    installs_directly hf (length h + 4) po /\
    (forall name, (props po !! name = None \/ name ∈ hidden po) ->
       name <> "constructor" ->
       lookup_prop hf (length h + 4) name = VUndef).

Module Shadowing.

(** A member set with a member named [hasOwnProperty], a target, and a
    member set with a member named [length]:
    [{hasOwnProperty: 1, greet: function () { return 'P'; }}], [{}] and
    [{length: 2}]. *)
Definition script : M (Value * Value * Value) :=
  f <- newFunction Installing.greet ;;
  members <- objectLiteral [("hasOwnProperty", VNum 1); ("greet", f)] ;;
  target <- objectLiteral [] ;;
  lengths <- objectLiteral [("length", VNum 2)] ;;
  ret (members, target, lengths).

Definition prepared : Heap := res_heap (script heap0).
Definition greet : loc := 3.
Definition members : loc := 5.
Definition target : loc := 6.
Definition lengths : loc := 7.

End Shadowing.

Module StaticName.

(** [Class.create({}, {name: 'Foo'})] *)
Definition script : M Value :=
  members <- objectLiteral [] ;;
  statics <- objectLiteral [("name", VStr "Foo")] ;;
  create [members; statics].

Definition statics : loc := 4.
Definition C : loc := 5.

End StaticName.

Module Observing.

(** [m: function () { return 'P'; }] *)
Definition mP : Callable :=
  mkCallable "function () { return 'P'; }" (fun _ _ => PRet (VStr "P")).

(** An override that never reads the slot, but tests for it. *)
Definition mC : Callable :=
  mkCallable "function () { /* no call of this.super() */ return 'super' in this; }"
    (fun this _ =>
       PAsk (QIn this "super") (fun a =>
       PRet (match a with ABool b => VBool b | AKeys _ => VUndef end))).

(** [var P = Class.create({m: ...}); var C = Class.create(P, {m: ...});] *)
Definition classes : M Value :=
  fP <- newFunction mP ;;
  membersP <- objectLiteral [("m", fP)] ;;
  P <- create [membersP] ;;
  fC <- newFunction mC ;;
  membersC <- objectLiteral [("m", fC)] ;;
  create [P; membersC].

(** The instance [c = new C()], the heap it lives in, the wrapper [c.m] and
    the callable it wraps. *)
Definition c : loc := (default (0, []) (instantiate 4 classes)).1.
Definition started : Heap := (default (0, []) (instantiate 4 classes)).2.
Definition wrapper : Value := lookup_prop started c "m".
Definition original : Value := VFun 10.

End Observing.

Module Bare.

(** A member set without [Object.prototype] on its chain, a parent table
    and a target:
    [var members = Object.create(null); members.greet = function () { ... };] *)
Definition script : M (Value * Value * Value) :=
  f <- newFunction Installing.greet ;;
  table <- objectLiteral [("greet", f)] ;;
  target <- createObject table ;;
  g <- newFunction Installing.greetOver ;;
  members <- createObject VNull ;;
  setProp members "greet" g ;;;
  ret (table, target, members).

Definition prepared : Heap := res_heap (script heap0).
Definition table : loc := 5.
Definition target : loc := 6.
Definition members : loc := 9.

End Bare.

(** * Properties *)

(** ** Heap and lookup lemmas *)

Lemma lookup_alloc (h more : Heap) (k : nat) :
  (h ++ more) !! (length h + k) = more !! k.
Proof.
  rewrite lookup_app_r by lia. f_equal. lia.
Qed.

Lemma lookup_alloc0 (h more : Heap) : (h ++ more) !! length h = more !! 0.
Proof.
  rewrite <- (Nat.add_0_r (length h)) at 1. apply lookup_alloc.
Qed.

Lemma chain_get_view fuel (h h' : Heap) l name :
  (forall l', l' <= l -> view name <$> h' !! l' = view name <$> h !! l') ->
  chain_get fuel h' l name = chain_get fuel h l name.
Proof.
  revert l. induction fuel as [|fuel IH]; intros l Hv; [reflexivity|].
  cbn [chain_get]. pose proof (Hv l (Nat.le_refl l)) as Hl.
  destruct (h' !! l) as [o'|], (h !! l) as [o|]; simpl in Hl; try discriminate;
    [|reflexivity].
  injection Hl as Hp Hq. rewrite Hp, Hq.
  destruct (props o !! name); [reflexivity|].
  destruct (proto o) as [p|]; [|reflexivity].
  destruct (p <? l)%nat eqn:Hlt; [|reflexivity].
  apply Nat.ltb_lt in Hlt. apply IH. intros l' Hl'. apply Hv. lia.
Qed.

Lemma lookup_prop_view (h h' : Heap) l name :
  (forall l', l' <= l -> view name <$> h' !! l' = view name <$> h !! l') ->
  lookup_prop h' l name = lookup_prop h l name.
Proof. apply chain_get_view. Qed.

Lemma lookup_prop_frame (h h' : Heap) l name :
  (forall l', l' <= l -> h' !! l' = h !! l') ->
  lookup_prop h' l name = lookup_prop h l name.
Proof.
  intros Hh. apply lookup_prop_view. intros l' Hl'. now rewrite Hh.
Qed.

Lemma lookup_prop_own (h : Heap) l o name v :
  h !! l = Some o -> props o !! name = Some v -> lookup_prop h l name = v.
Proof.
  intros Hl Hn. unfold lookup_prop. cbn [chain_get]. now rewrite Hl, Hn.
Qed.

Lemma lookup_prop_delegate (h : Heap) l o p name :
  h !! l = Some o -> props o !! name = None -> proto o = Some p -> p < l ->
  lookup_prop h l name = lookup_prop h p name.
Proof.
  intros Hl Hn Hp Hlt. unfold lookup_prop at 1. cbn [chain_get].
  rewrite Hl, Hn, Hp. apply Nat.ltb_lt in Hlt as Hb. rewrite Hb.
  unfold lookup_prop. clear Hb.
  assert (Hgen : forall f1 f2 q, q < f1 -> q < f2 ->
            chain_get f1 h q name = chain_get f2 h q name).
  { induction f1 as [|f1 IH]; intros f2 q H1 H2; [lia|].
    destruct f2 as [|f2]; [lia|]. cbn [chain_get].
    destruct (h !! q) as [oq|]; [|reflexivity].
    destruct (props oq !! name); [reflexivity|].
    destruct (proto oq) as [r|]; [|reflexivity].
    destruct (r <? q)%nat eqn:Hr; [|reflexivity].
    apply Nat.ltb_lt in Hr. apply IH; lia. }
  apply Hgen; lia.
Qed.

Lemma insert_alloc (h more : Heap) (k : nat) (o : Obj) :
  <[length h + k := o]> (h ++ more) = h ++ <[k := o]> more.
Proof.
  rewrite insert_app_r_alt by lia. do 2 f_equal. lia.
Qed.

Lemma newFunction_eq (c : Callable) (h : Heap) :
  newFunction c h =
  Ok (VFun (length h))
     (h ++ [mkObj {["prototype" := VObj (length h + 1)]} ["prototype"]
              (Some FunctionPrototype) (Some c);
            mkObj {["constructor" := VFun (length h)]} ["constructor"]
              (Some ObjectPrototype) None]).
Proof. unfold newFunction. now rewrite Nat.add_1_r. Qed.

(** ** The argument parser *)

Lemma parseArgs_spec (args : list Value) : parseArgs args = classify_spec args.
Proof.
  destruct args as [|a [|b [|c rest]]]; [reflexivity| | |].
  - destruct a; reflexivity.
  - destruct a, b; reflexivity.
  - destruct a, b, c; reflexivity.
Qed.

Lemma classify_spec_error (args : list Value) (e : Exn) :
  classify_spec args = inl e -> e = TypeError "Invalid arguments".
Proof.
  destruct args as [|a [|b [|c rest]]]; simpl.
  - discriminate.
  - destruct (callable a); [discriminate|]. destruct (mapping a); congruence.
  - destruct (callable a && mapping b); [discriminate|].
    destruct (mapping a && mapping b); congruence.
  - destruct (callable a && mapping b && mapping c); congruence.
Qed.

(** C6.  [parseArgs] classifies every argument list as section 4.1 says, and
    when the list matches no pattern [create] throws TypeError('Invalid
    arguments') from the heap it was called in: nothing was allocated or
    written. *)
Theorem create_classifies_or_rejects (args : list Value) :
  parseArgs args = classify_spec args /\
  match classify_spec args with
  | inl e =>
      e = TypeError "Invalid arguments" /\ forall h, create args h = Raise e h
  | inr d => forall h, create args h = create_from d h
  end.
Proof.
  split; [apply parseArgs_spec|].
  destruct (classify_spec args) as [e|d] eqn:Hc.
  - split; [eapply classify_spec_error; eassumption|].
    intros h. unfold create. now rewrite parseArgs_spec, Hc.
  - intros h. unfold create. now rewrite parseArgs_spec, Hc.
Qed.

(** ** The class factory on a root class *)

Lemma create_from_root (st : Value) (h : Heap) :
  truthy st = false ->
  create_from (mkParsedArgs VUndef st VUndef) h =
  Ok (VFun (length h)) (h ++ class_objects (length h)).
Proof.
  intros Hst. unfold create_from, bind, when. cbn [parent pprops staticProps truthy].
  rewrite Hst. rewrite newFunction_eq. cbn [getProp].
  erewrite lookup_prop_own;
    [|rewrite lookup_alloc0; reflexivity|reflexivity].
  rewrite newFunction_eq. cbn [setProp].
  rewrite length_app. cbn [length]. rewrite <- app_assoc. cbn [app].
  rewrite lookup_alloc. cbn [lookup list_lookup].
  rewrite insert_alloc. replace (length h + 2 + 1) with (length h + 3) by lia.
  reflexivity.
Qed.

(** Unfolding equations of [run]. *)
Lemma run_PRet n v h : run (S n) (PRet v) h = Some (Ok v h).
Proof. reflexivity. Qed.

Lemma run_PThrow n e h : run (S n) (PThrow e) h = Some (Raise e h).
Proof. reflexivity. Qed.

Lemma run_PGet n o name k h :
  run (S n) (PGet o name k) h =
  match getProp o name h with
  | Ok v h' => run (S n) (k v) h'
  | Raise e h' => Some (Raise e h')
  end.
Proof. reflexivity. Qed.

Lemma run_PSet n o name v k h :
  run (S n) (PSet o name v k) h =
  match setProp o name v h with
  | Ok _ h' => run (S n) k h'
  | Raise e h' => Some (Raise e h')
  end.
Proof. reflexivity. Qed.

Lemma run_PCall n f this args k h :
  run (S n) (PCall f this args k) h =
  match callee h f with
  | None => Some (Raise (TypeError "not a function") h)
  | Some c =>
      match run n (body c this args) h with
      | Some (Ok v h') => run (S n) (k v) h'
      | Some (Raise e h') => Some (Raise e h')
      | None => None
      end
  end.
Proof. reflexivity. Qed.

Lemma run_PAsk n q k h :
  run (S n) (PAsk q k) h =
  match query q h with
  | Ok a h' => run (S n) (k a) h'
  | Raise e h' => Some (Raise e h')
  end.
Proof. reflexivity. Qed.

Lemma query_heap (q : Query) (h : Heap) : res_heap (query q h) = h.
Proof. destruct q as [o name|o name|o|o]; destruct o; reflexivity. Qed.

Lemma construct_root (h : Heap) (n : nat) (args : list Value) :
  construct (S (S n)) (VFun (length h)) args (h ++ class_objects (length h)) =
  Some (Ok (VObj (length h + 4))
          (h ++ class_objects (length h) ++ [instance_of (length h + 1)])).
Proof.
  unfold construct, callee. rewrite lookup_alloc0.
  change (class_objects (length h) !! 0) with (Some (mkObj {["prototype" := VObj (length h + 1)]}
    ["prototype"] (Some FunctionPrototype) (Some (mkCallable Class_src Class_body)))).
  cbn [code getProp].
  erewrite lookup_prop_own; [|rewrite lookup_alloc0; reflexivity|reflexivity].
  rewrite length_app. change (length (class_objects (length h))) with 4.
  cbn [body]. rewrite <- app_assoc. fold (instance_of (length h + 1)).
  unfold Class_body. rewrite run_PGet. cbn [getProp].
  assert (Hinit : lookup_prop
            (h ++ class_objects (length h) ++ [instance_of (length h + 1)])
            (length h + 4) "init" = VFun (length h + 2)).
  { erewrite lookup_prop_delegate;
      [|rewrite lookup_alloc; reflexivity|reflexivity|reflexivity|lia].
    eapply lookup_prop_own; [rewrite lookup_alloc; reflexivity|reflexivity]. }
  rewrite Hinit. change (isFn (VFun (length h + 2))) with true. cbv iota.
  rewrite run_PGet. cbn [getProp]. rewrite Hinit.
  rewrite run_PCall. unfold callee. rewrite lookup_alloc.
  reflexivity.
Qed.

(** C10.  A single [null] argument is taken for the instance members (its
    type test answers [object], as it does for an array or any other
    object), the member installation is skipped, and the result is the class
    [create()] builds: only the default [init] in its member table, and
    constructible. *)
Theorem create_null_builds_root_class (h : Heap) :
  parseArgs [VNull] = inr (mkParsedArgs VUndef VNull VUndef) /\
  (forall l, parseArgs [VObj l] = inr (mkParsedArgs VUndef (VObj l) VUndef)) /\
  create [VNull] h = Ok (VFun (length h)) (h ++ class_objects (length h)) /\
  create [VNull] h = create [] h /\
  ownKeys (h ++ class_objects (length h)) (VObj (length h + 1)) = ["init"] /\
  forall n args,
    construct (S (S n)) (VFun (length h)) args (h ++ class_objects (length h)) =
    Some (Ok (VObj (length h + 4))
            (h ++ class_objects (length h) ++ [instance_of (length h + 1)])).
Proof.
  split; [reflexivity|]. split; [reflexivity|].
  assert (Hnull : create [VNull] h =
                  Ok (VFun (length h)) (h ++ class_objects (length h))).
  { unfold create. cbn [parseArgs length Nat.eqb Nat.leb arg nth typeof String.eqb].
    change (String.eqb "object" "function") with false.
    change (String.eqb "object" "object") with true. cbv iota.
    now apply create_from_root. }
  split; [exact Hnull|]. split.
  { rewrite Hnull. unfold create. cbn [parseArgs length Nat.eqb Nat.leb].
    now rewrite create_from_root. }
  split; [|intros n args; apply construct_root].
  unfold ownKeys. rewrite lookup_alloc. reflexivity.
Qed.

(** C2.  With [A = create({greet})] returning 'A' and
    [B = create(A, {greet})] returning 'B:' + this.super(), calling [greet]
    on a new [B] returns 'B:A'. *)
Theorem two_level_greet : TwoLevel.greeting 4 = Some (VStr "B:A").
Proof. vm_compute. reflexivity. Qed.

(** ** The wrapper *)

Lemma getProp_truthy (sup : Value) (name : string) (h : Heap) :
  truthy sup = true -> getProp sup name h = Ok (parent_method h sup name) h.
Proof. destruct sup; simpl; intros; try discriminate; reflexivity. Qed.

Lemma callee_insert (h : Heap) l name v o f :
  h !! l = Some o -> callee (<[l := set_own name v o]> h) f = callee h f.
Proof.
  intros Hl. destruct f; try reflexivity. unfold callee.
  destruct (decide (l = l0)) as [->|Hne].
  - rewrite list_lookup_insert_eq by (now apply lookup_lt_Some in Hl).
    now rewrite Hl.
  - now rewrite list_lookup_insert_ne.
Qed.

Lemma read_only_other (ob : Obj) (name : string) :
  existsb (String.eqb name) read_only_names = false -> read_only ob name = false.
Proof. unfold read_only. now destruct (code ob). Qed.

Lemma read_only_set_own (ob : Obj) (name' : string) (x : Value) (name : string) :
  read_only (set_own name' x ob) name = read_only ob name.
Proof. reflexivity. Qed.

Lemma setProp_Ok (o : Value) (name : string) (v : Value) (h h' : Heap) :
  setProp o name v h = Ok tt h' ->
  exists l ob, loc_of o = Some l /\ h !! l = Some ob /\
               h' = <[l := set_own name v ob]> h.
Proof.
  destruct o; simpl; unfold raise; try discriminate;
    (destruct (h !! l) as [ob|] eqn:Hl; [|discriminate]);
    (destruct (read_only ob name); [discriminate|]);
    intros [= <-]; eauto.
Qed.

Lemma setProp_length (o : Value) (name : string) (v : Value) (h : Heap) :
  length (res_heap (setProp o name v h)) = length h.
Proof.
  destruct o; simpl; try reflexivity;
    (destruct (h !! l) as [ob|]; simpl; [|reflexivity]);
    (destruct (read_only ob name); simpl; [reflexivity|apply length_insert]).
Qed.

Lemma getProp_heap (o : Value) (name : string) (h : Heap) :
  res_heap (getProp o name h) = h.
Proof. destruct o; reflexivity. Qed.

(** Running a body never frees an object. *)
Lemma run_grows (n : nat) : forall p h r,
  run n p h = Some r -> length h <= length (res_heap r).
Proof.
  induction n as [|n IHn]; [discriminate|].
  induction p as [v|e|o name k IHk|o name v k IHk|f this args k IHk|q k IHk]; intros h r.
  - rewrite run_PRet. intros [= <-]. reflexivity.
  - rewrite run_PThrow. intros [= <-]. reflexivity.
  - rewrite run_PGet. pose proof (getProp_heap o name h) as Hh.
    destruct (getProp o name h) as [x h'|e h']; simpl in Hh; subst h'.
    + apply IHk.
    + intros [= <-]. reflexivity.
  - rewrite run_PSet. pose proof (setProp_length o name v h) as Hh.
    destruct (setProp o name v h) as [x h'|e h']; simpl in Hh.
    + intros Hr. apply IHk in Hr. lia.
    + intros [= <-]. simpl. lia.
  - rewrite run_PCall. destruct (callee h f) as [c|]; [|intros [= <-]; reflexivity].
    destruct (run n (body c this args) h) as [[v h'|e h']|] eqn:Hc; [| |discriminate].
    + apply IHn in Hc. simpl in Hc. intros Hr. apply IHk in Hr. lia.
    + apply IHn in Hc. intros [= <-]. exact Hc.
  - rewrite run_PAsk. pose proof (query_heap q h) as Hh.
    destruct (query q h) as [a h'|e h']; simpl in Hh; subst h'.
    + apply IHk.
    + intros [= <-]. reflexivity.
Qed.

Lemma lookup_prop_set_own (h : Heap) l o name v :
  h !! l = Some o -> lookup_prop (<[l := set_own name v o]> h) l name = v.
Proof.
  intros Hl. eapply lookup_prop_own.
  - apply list_lookup_insert_eq. now apply lookup_lt_Some in Hl.
  - simpl. apply lookup_insert_eq.
Qed.

(** The wrapper, step by step: it binds the slot, runs the original callable,
    and assigns the saved value back once that returns. *)
Lemma wrap_body_run n fnName fn sup l args (h : Heap) o c :
  h !! l = Some o -> callee h fn = Some c -> truthy sup = true ->
  run (S n) (wrap_body fnName fn sup (VObj l) args) h =
  match run n (body c (VObj l) args)
              (<[l := set_own "super" (parent_method h sup fnName) o]> h) with
  | Some (Ok v h2) =>
      match setProp (VObj l) "super" (lookup_prop h l "super") h2 with
      | Ok _ h3 => Some (Ok v h3)
      | Raise e h3 => Some (Raise e h3)
      end
  | Some (Raise e h2) => Some (Raise e h2)
  | None => None
  end.
Proof.
  intros Hl Hc Hs. unfold wrap_body.
  rewrite run_PGet. cbn [getProp]. rewrite run_PGet, (getProp_truthy _ _ _ Hs).
  rewrite run_PSet. cbn [setProp]. rewrite Hl, read_only_other by reflexivity.
  rewrite run_PCall, (callee_insert _ _ _ _ _ _ Hl), Hc.
  destruct (run n _ _) as [[v h2|e h2]|]; reflexivity.
Qed.

Lemma wrap_body_restores n fnName fn sup l args (h h1 : Heap) v :
  run n (wrap_body fnName fn sup (VObj l) args) h = Some (Ok v h1) ->
  lookup_prop h1 l "super" = lookup_prop h l "super".
Proof.
  destruct n as [|n]; [discriminate|]. unfold wrap_body.
  rewrite run_PGet. cbn [getProp]. rewrite run_PGet.
  destruct (getProp sup fnName h) as [m h'|e h'] eqn:Hg; [|discriminate].
  pose proof (getProp_heap sup fnName h) as Hh. rewrite Hg in Hh. simpl in Hh.
  subst h'. rewrite run_PSet.
  destruct (setProp (VObj l) "super" m h) as [[] hb|e hb]; [|discriminate].
  rewrite run_PCall. destruct (callee hb fn) as [c|]; [|discriminate].
  destruct (run n (body c (VObj l) args) hb) as [[r h2|e h2]|]; try discriminate.
  rewrite run_PSet.
  destruct (setProp (VObj l) "super" (lookup_prop h l "super") h2)
    as [[] h3|e h3] eqn:Hs; [|discriminate].
  rewrite run_PRet. intros [= <- <-].
  apply setProp_Ok in Hs as (l' & ob & [= <-] & Hl & ->).
  now apply lookup_prop_set_own.
Qed.

(** C1 (as the code has it).  A wrapped call on an instance binds the
    super slot to the parent table's implementation of the member, runs the
    original callable with the same receiver and arguments in that heap, and,
    when the callable returns, assigns the saved value back and returns the
    callable's result.  When the callable throws, the exception leaves the
    wrapper at once: the heap is the one the callable left, the slot is not
    assigned back. *)
Theorem wrap_binds_super_and_restores_on_return
  n fnName fn sup l args (h : Heap) o c :
  h !! l = Some o -> callee h fn = Some c -> truthy sup = true ->
  wrap_contract n fnName fn sup l args h o c.
Proof.
  intros Hl Hc Hs. unfold wrap_contract.
  set (bound := <[l := set_own "super" (parent_method h sup fnName) o]> h).
  split; [now apply lookup_prop_set_own|].
  rewrite (wrap_body_run _ _ _ _ _ _ _ _ _ Hl Hc Hs). fold bound.
  destruct (run n (body c (VObj l) args) bound) as [[v h2|e h2]|] eqn:Hr;
    [|reflexivity|reflexivity].
  apply run_grows in Hr. simpl in Hr. unfold bound in Hr.
  rewrite length_insert in Hr.
  destruct (lookup_lt_is_Some_2 h2 l) as [o2 Ho2].
  { apply lookup_lt_Some in Hl. lia. }
  exists o2. split; [exact Ho2|]. cbn [setProp].
  rewrite Ho2, read_only_other by reflexivity.
  split; [reflexivity|]. now apply lookup_prop_set_own.
Qed.

Lemma wrap_binds_super_and_restores_on_return_witness :
  wrap_contract 2 "n" Reentrant.original_n Reentrant.tableA Reentrant.b []
    Reentrant.in_frame_m
    (default (mkObj ∅ [] None None) (Reentrant.in_frame_m !! Reentrant.b))
    Reentrant.nB.
Proof.
  apply wrap_binds_super_and_restores_on_return; vm_compute; reflexivity.
Defined.

(** C1, the claim as written fails: [c.m()] throws before the override
    reaches its super call, and afterwards the super slot of [c] holds
    [P.prototype.m], not the [undefined] it held before the call. *)
Lemma wrap_leaves_super_bound_after_throw :
  Throwing.slot_before = Some VUndef /\
  Throwing.exit = Some (JsError "not ready") /\
  Throwing.slot_after = Throwing.parent_impl /\
  Throwing.slot_after <> Throwing.slot_before.
Proof.
  repeat split; try (vm_compute; reflexivity). vm_compute. discriminate.
Qed.

(** C4.  A wrapped method called on an instance from inside another frame
    on that instance gives the slot back as it found it.  When the outer
    frame makes the call its binding is in the slot; the nested wrapper saves
    it, binds its own, and assigns it back on return, so the continuation of
    the outer frame runs in a heap where the slot reads the outer binding
    again: the pairs of save and restore nest as the calls do. *)
Theorem nested_wrapped_call_keeps_outer_binding
  n w fnName fn sup l args k (h h1 : Heap) v binding :
  lookup_prop h l "super" = binding ->
  callee h (VFun w) = Some (mkCallable wrap_src (wrap_body fnName fn sup)) ->
  run n (wrap_body fnName fn sup (VObj l) args) h = Some (Ok v h1) ->
  run (S n) (PCall (VFun w) (VObj l) args k) h = run (S n) (k v) h1 /\
  lookup_prop h1 l "super" = binding.
Proof.
  intros Hb Hw Hr. split.
  - rewrite run_PCall, Hw. cbn [body]. now rewrite Hr.
  - rewrite <- Hb. eapply wrap_body_restores. eassumption.
Qed.

Lemma nested_wrapped_call_keeps_outer_binding_witness :
  run 4 (PCall (VFun Reentrant.wrapper_n) (VObj Reentrant.b) [] PRet)
    Reentrant.in_frame_m
  = run 4 (PRet (VStr "ba")) Reentrant.after_n /\
  lookup_prop Reentrant.after_n Reentrant.b "super"
  = parent_method Reentrant.started Reentrant.tableA "m".
Proof.
  apply (nested_wrapped_call_keeps_outer_binding 3 Reentrant.wrapper_n "n"
           Reentrant.original_n Reentrant.tableA);
    vm_compute; reflexivity.
Defined.

(** The scripted pair of mutually overridden methods: [m] of [B] calls super
    twice, and the first super call re-enters the wrapped [n]; the second
    still reaches [m] of [A]. *)
Example reentrant_trace : Reentrant.trace 7 = Some (VStr "BAbaAba").
Proof. vm_compute. reflexivity. Qed.

(** ** Heaps that differ in super slots only *)





















(** Not reading the slot is not enough, also on an object: the override of
    [m] below mentions the slot in a comment only and never reads it, but
    it tests ['super' in this].  Bare, it answers [false] on a fresh
    instance; wrapped, it answers [true], for the wrapper has assigned the
    slot before it runs.  The hypothesis of the theorem above excludes it. *)
Example wrapped_callable_can_test_for_the_slot :
  callee Observing.started Observing.wrapper
  = Some (mkCallable wrap_src
            (wrap_body "m" Observing.original
               (lookup_prop Observing.started 13 "__super__"))) /\
  callee Observing.started Observing.original = Some Observing.mC /\
  run 3 (PCall Observing.original (VObj Observing.c) [] PRet) Observing.started
  = Some (Ok (VBool false) Observing.started) /\
  res_value (run 3 (PCall Observing.wrapper (VObj Observing.c) [] PRet)
               Observing.started)
  = Some (VBool true) /\
  reads_no_super 1 (body Observing.mC (VObj Observing.c) []) Observing.started
  = false.
Proof. repeat split; vm_compute; reflexivity. Qed.

(** ** The member installer *)

Lemma getProp_ref v l name (h : Heap) :
  loc_of v = Some l -> getProp v name h = Ok (lookup_prop h l name) h.
Proof. destruct v; simpl; intros [= ->]; reflexivity. Qed.

Lemma setProp_ref v l name x (h : Heap) o :
  loc_of v = Some l -> h !! l = Some o -> read_only o name = false ->
  setProp v name x h = Ok tt (<[l := set_own name x o]> h).
Proof. destruct v; simpl; intros [= ->] -> ->; reflexivity. Qed.

Lemma newFunction_objects (c : Callable) (h : Heap) :
  newFunction c h = Ok (VFun (length h)) (h ++ function_objects c (length h)).
Proof. apply newFunction_eq. Qed.

Lemma extend_member_eq obj props0 sup name (h : Heap) ol pl oo po v :
  loc_of obj = Some ol -> loc_of props0 = Some pl ->
  h !! ol = Some oo -> h !! pl = Some po -> props po !! name = Some v ->
  read_only oo name = false ->
  extend_member obj props0 sup name h =
  if wraps h ol sup v name then
    Ok tt (<[ol := set_own name (VFun (length h)) oo]>
             (h ++ function_objects (mkCallable wrap_src (wrap_body name v sup))
                     (length h)))
  else Ok tt (<[ol := set_own name v oo]> h).
Proof.
  intros Hobj Hprops Hol Hpl Hv Hro.
  assert (Hdirect : (v0 <- getProp props0 name ;; setProp obj name v0) h
                    = Ok tt (<[ol := set_own name v oo]> h)).
  { unfold bind. rewrite (getProp_ref _ _ _ _ Hprops).
    rewrite (lookup_prop_own _ _ _ _ _ Hpl Hv). now apply setProp_ref. }
  unfold extend_member, wraps. destruct (truthy sup); [|exact Hdirect].
  cbn [andb]. unfold bind at 1. rewrite (getProp_ref _ _ _ _ Hprops).
  rewrite (lookup_prop_own _ _ _ _ _ Hpl Hv). unfold bind at 1, heap_now.
  destruct (hasFnSuperCall h v); [|exact Hdirect].
  cbn [andb]. unfold bind at 1. rewrite (getProp_ref _ _ _ _ Hobj).
  destruct (isFn (lookup_prop h ol name)); [|exact Hdirect].
  unfold bind, wrap. rewrite (getProp_ref _ _ _ _ Hprops).
  rewrite (lookup_prop_own _ _ _ _ _ Hpl Hv), newFunction_objects.
  apply setProp_ref; [assumption| |assumption]. now apply lookup_app_l_Some.
Qed.

Lemma callee_stable (h h1 : Heap) ol oo name x v :
  h !! ol = Some oo -> h1 !! ol = Some (set_own name x oo) ->
  (forall l, l < length h -> l <> ol -> h1 !! l = h !! l) ->
  val_ok h v -> callee h1 v = callee h v.
Proof.
  intros Hol H1 Hfr Hv. destruct v; try reflexivity. unfold callee.
  unfold val_ok in Hv. simpl in Hv. destruct (decide (l = ol)) as [->|Hne].
  - now rewrite Hol, H1.
  - now rewrite Hfr.
Qed.

Lemma lookup_prop_stable (h h1 : Heap) ol oo name x name' :
  h !! ol = Some oo -> h1 !! ol = Some (set_own name x oo) ->
  (forall l, l < length h -> l <> ol -> h1 !! l = h !! l) ->
  name' <> name -> lookup_prop h1 ol name' = lookup_prop h ol name'.
Proof.
  intros Hol H1 Hfr Hne. apply lookup_prop_view. intros l' Hl'.
  destruct (decide (l' = ol)) as [->|Hd].
  - rewrite Hol, H1. simpl. unfold view. simpl.
    now rewrite lookup_insert_ne by congruence.
  - rewrite Hfr; [reflexivity| |assumption].
    apply lookup_lt_Some in Hol. lia.
Qed.

Lemma wraps_stable (h h1 : Heap) ol oo name x sup v name' :
  h !! ol = Some oo -> h1 !! ol = Some (set_own name x oo) ->
  (forall l, l < length h -> l <> ol -> h1 !! l = h !! l) ->
  name' <> name -> (truthy sup = true -> val_ok h v) ->
  wraps h1 ol sup v name' = wraps h ol sup v name'.
Proof.
  intros Hol H1 Hfr Hne Hv. unfold wraps.
  destruct (truthy sup); [|reflexivity]. specialize (Hv eq_refl).
  unfold hasFnSuperCall, toString.
  rewrite (callee_stable _ _ _ _ _ _ _ Hol H1 Hfr Hv).
  now rewrite (lookup_prop_stable _ _ _ _ _ _ _ Hol H1 Hfr Hne).
Qed.

Lemma val_ok_mono (h h1 : Heap) v : length h <= length h1 -> val_ok h v -> val_ok h1 v.
Proof. unfold val_ok. destruct (loc_of v); [lia|trivial]. Qed.

Lemma callee_allocated (h : Heap) f c : callee h f = Some c -> val_ok h f.
Proof.
  destruct f; try discriminate. unfold callee, val_ok. simpl.
  destruct (h !! l) eqn:Hl; [|discriminate]. intros _.
  now apply lookup_lt_Some in Hl.
Qed.

(** On a member set that finds the builtin, [props.hasOwnProperty(name)] is
    the own property test. *)
Lemma hasOwnProperty_own_test props0 pl name (h : Heap) po :
  loc_of props0 = Some pl -> h !! pl = Some po -> calls_builtin h pl = true ->
  hasOwnProperty props0 name h
  = Ok (match props po !! name with Some _ => true | None => false end) h.
Proof.
  intros Hp Hpl Hm. unfold hasOwnProperty, bind, heap_now.
  rewrite (getProp_ref _ _ _ _ Hp). unfold calls_builtin in Hm.
  destruct (callee h (lookup_prop h pl "hasOwnProperty")) as [c|]; [|discriminate].
  rewrite Hm. unfold ret, has_own.
  destruct props0; try discriminate; simpl in Hp; injection Hp as ->;
    now rewrite Hpl.
Qed.

(** Which function the member set finds is not changed by a write of
    another object that leaves the links alone, unless the write is the one
    of [hasOwnProperty] itself on an object the member set inherits it
    from. *)
Lemma calls_builtin_stable (h h1 : Heap) ol oo pl po name x :
  h !! ol = Some oo -> h1 !! ol = Some (set_own name x oo) ->
  (forall l, l < length h -> l <> ol -> h1 !! l = h !! l) ->
  h !! pl = Some po -> pl <> ol ->
  (props po !! "hasOwnProperty" = None -> name <> "hasOwnProperty") ->
  calls_builtin h pl = true -> calls_builtin h1 pl = true.
Proof.
  intros Hol H1 Hfr Hpl Hne Hname Hm. unfold calls_builtin in *.
  pose proof (lookup_lt_Some _ _ _ Hpl) as Hplt.
  assert (Hsame : lookup_prop h1 pl "hasOwnProperty"
                  = lookup_prop h pl "hasOwnProperty").
  { destruct (props po !! "hasOwnProperty") as [v|] eqn:Hv.
    - rewrite (lookup_prop_own h pl po _ v Hpl Hv).
      apply (lookup_prop_own h1 pl po _ v); [|exact Hv].
      rewrite Hfr by assumption. exact Hpl.
    - specialize (Hname eq_refl). apply lookup_prop_view. intros l' Hl'.
      destruct (decide (l' = ol)) as [->|Hd].
      + rewrite Hol, H1. simpl. unfold view. simpl.
        now rewrite lookup_insert_ne by congruence.
      + rewrite Hfr; [reflexivity|lia|assumption]. }
  rewrite Hsame.
  destruct (callee h (lookup_prop h pl "hasOwnProperty")) as [c|] eqn:Hc;
    [|discriminate].
  rewrite (callee_stable h h1 ol oo name x _ Hol H1 Hfr (callee_allocated _ _ _ Hc)).
  now rewrite Hc.
Qed.

Lemma calls_builtin_frame (h h' : Heap) pl :
  (forall l, l < length h -> h' !! l = h !! l) -> pl < length h ->
  calls_builtin h pl = true -> calls_builtin h' pl = true.
Proof.
  intros Hfr Hpl Hm. unfold calls_builtin in *.
  rewrite (lookup_prop_frame h h' pl) by (intros l' Hl'; apply Hfr; lia).
  destruct (callee h (lookup_prop h pl "hasOwnProperty")) as [c|] eqn:Hc;
    [|discriminate].
  pose proof (callee_allocated _ _ _ Hc) as Hok.
  destruct (lookup_prop h pl "hasOwnProperty"); try discriminate.
  unfold callee in *. unfold val_ok in Hok. simpl in Hok.
  rewrite Hfr by assumption. destruct (h !! l); [|discriminate].
  now rewrite Hc.
Qed.

Section Installation.

Variables (obj props0 sup : Value) (ol pl : loc) (po : Obj).
Hypothesis Hobj : loc_of obj = Some ol.
Hypothesis Hprops : loc_of props0 = Some pl.
Hypothesis Hdistinct : pl <> ol.

(** The body of the [if], whichever branch it takes. *)
Lemma extend_member_step name v (h : Heap) oo :
  h !! ol = Some oo -> h !! pl = Some po -> props po !! name = Some v ->
  read_only oo name = false ->
  exists h1 x,
    extend_member obj props0 sup name h = Ok tt h1 /\
    h1 !! ol = Some (set_own name x oo) /\
    h1 !! pl = Some po /\
    length h <= length h1 /\
    (truthy sup = false -> length h1 = length h) /\
    (forall l, l < length h -> l <> ol -> h1 !! l = h !! l) /\
    (if wraps h ol sup v name then
       x = VFun (length h) /\ length h < length h1 /\
       callee h1 (VFun (length h))
       = Some (mkCallable wrap_src (wrap_body name v sup))
     else x = v).
Proof.
  intros Hol Hpl Hv Hro.
  rewrite (extend_member_eq _ _ _ _ _ _ _ _ _ _ Hobj Hprops Hol Hpl Hv Hro).
  pose proof (lookup_lt_Some _ _ _ Hol) as Hlt.
  pose proof (lookup_lt_Some _ _ _ Hpl) as Hlt'.
  destruct (wraps h ol sup v name) eqn:Hw.
  - eexists _, (VFun (length h)). split; [reflexivity|].
    assert (Hfr : forall l, l < length h -> l <> ol ->
              <[ol := set_own name (VFun (length h)) oo]>
                (h ++ function_objects
                        (mkCallable wrap_src (wrap_body name v sup)) (length h)) !! l
              = h !! l).
    { intros l Hl Hne. rewrite list_lookup_insert_ne by congruence.
      now apply lookup_app_l. }
    repeat split.
    + apply list_lookup_insert_eq. rewrite length_app. lia.
    + rewrite Hfr by assumption. exact Hpl.
    + rewrite length_insert, length_app. lia.
    + intros Hs. unfold wraps in Hw. rewrite Hs in Hw. discriminate.
    + exact Hfr.
    + rewrite length_insert, length_app. simpl. lia.
    + unfold callee. rewrite list_lookup_insert_ne by lia.
      now rewrite lookup_alloc0.
  - eexists _, v. split; [reflexivity|]. repeat split.
    + now apply list_lookup_insert_eq.
    + rewrite list_lookup_insert_ne by congruence. exact Hpl.
    + now rewrite length_insert.
    + intros _. apply length_insert.
    + intros l Hl Hne. now rewrite list_lookup_insert_ne by congruence.
Qed.

(** One round of the loop on a member set that resolves the builtin: a name
    that is no own property is passed over. *)
Lemma extend_visit_eq name (h : Heap) :
  h !! pl = Some po -> calls_builtin h pl = true ->
  extend_visit obj props0 sup name h =
  match props po !! name with
  | Some _ => extend_member obj props0 sup name h
  | None => Ok tt h
  end.
Proof.
  intros Hpl Hm. unfold extend_visit, bind.
  rewrite (hasOwnProperty_own_test _ _ name _ _ Hprops Hpl Hm).
  now destruct (props po !! name).
Qed.

(** The loop invariant, by induction on the names left to visit. *)
Lemma extend_loop_spec : forall names (h : Heap) oo,
  NoDup names ->
  h !! ol = Some oo -> h !! pl = Some po ->
  calls_builtin h pl = true ->
  (forall name, name ∈ names -> is_Some (props po !! name) ->
                read_only oo name = false) ->
  (truthy sup = true -> forall name v, props po !! name = Some v -> val_ok h v) ->
  exists hf, extend_loop obj props0 sup names h = Ok tt hf /\
             extended h hf ol oo po sup
               (filter (fun name => is_Some (props po !! name)) names).
Proof.
  induction names as [|name rest IH]; intros h oo Hnd Hol Hpl Hm Hro Hok.
  - exists h. split; [reflexivity|]. repeat split; try lia.
    + exists oo. repeat split. exact Hol.
    + intros name v Hn. now apply elem_of_nil in Hn.
  - apply NoDup_cons in Hnd as [Hfresh Hnd].
    cbn [extend_loop]. unfold bind at 1.
    rewrite (extend_visit_eq name h Hpl Hm).
    destruct (props po !! name) as [v|] eqn:Hv.
    + assert (Hron : read_only oo name = false) by (apply Hro; [left|eauto]).
      destruct (extend_member_step name v h oo Hol Hpl Hv Hron)
        as (h1 & x & Hstep & H1ol & H1pl & Hlen1 & Hna1 & Hfr1 & Hhead).
      assert (Hm1 : calls_builtin h1 pl = true).
      { apply (calls_builtin_stable h h1 ol oo pl po name x); try assumption.
        intros Hnone ->. congruence. }
      destruct (IH h1 (set_own name x oo) Hnd H1ol H1pl Hm1) as (hf & Hloop & Hext).
      { intros n Hn Hs. rewrite read_only_set_own. apply Hro; [now right|exact Hs]. }
      { intros Hs n w Hw. eapply val_ok_mono; [exact Hlen1|].
        eapply Hok; eassumption. }
      rewrite filter_cons_True by eauto.
      assert (Hfresh' : name ∉ filter (fun n => is_Some (props po !! n)) rest).
      { intros Hin. apply list_elem_of_filter in Hin as [_ Hin]. contradiction. }
      destruct Hext as (Hlen & Hna & Hfr & (o' & Ho' & Hpr & Hco & Hhi & Hkeep) & Hinst).
      exists hf. split; [now rewrite Hstep|].
      repeat split.
      * lia.
      * intros Hs. rewrite (Hna Hs). now apply Hna1.
      * intros l Hl Hne. rewrite Hfr by (try lia; assumption). now apply Hfr1.
      * exists o'. repeat split; try assumption.
        intros n Hn. rewrite Hkeep.
        -- simpl. apply lookup_insert_ne. intros ->. apply Hn. left.
        -- intros Hr. apply Hn. now right.
      * intros n w Hn Hw. apply elem_of_cons in Hn as [->|Hn].
        -- assert (w = v) as -> by congruence.
           assert (Hown : own hf ol name = Some x).
           { unfold own. rewrite Ho'. simpl. rewrite (Hkeep name Hfresh').
             simpl. apply lookup_insert_eq. }
           unfold installed. destruct (wraps h ol sup v name).
           ++ destruct Hhead as (-> & Hlt & Hcal). exists (length h).
              split; [exact Hown|]. split; [lia|].
              unfold callee in *. rewrite Hfr; [exact Hcal|lia|].
              apply lookup_lt_Some in Hol. lia.
           ++ now subst x.
        -- assert (Hne : n <> name) by (intros ->; contradiction).
           specialize (Hinst n w Hn Hw). unfold installed in *.
           rewrite (wraps_stable h h1 ol oo name x sup w n Hol H1ol Hfr1 Hne) in Hinst
             by (intros Hs; eapply Hok; eassumption).
           destruct (wraps h ol sup w n); [|exact Hinst].
           destruct Hinst as (f & Hf & Hge & Hcal). exists f.
           split; [exact Hf|]. split; [lia|exact Hcal].
    + rewrite filter_cons_False by (intros [? ?]; congruence).
      apply (IH h oo Hnd Hol Hpl Hm); [|exact Hok].
      intros n Hn. apply Hro. now right.
Qed.

End Installation.

Lemma ownKeys_NoDup (h : Heap) v : NoDup (ownKeys h v).
Proof.
  unfold ownKeys. destruct v; try apply NoDup_nil_2;
    (destruct (h !! l); [|apply NoDup_nil_2]);
    apply NoDup_filter, NoDup_fst_map_to_list.
Qed.

Lemma ownKeys_elem (h : Heap) v l o name :
  loc_of v = Some l -> h !! l = Some o ->
  name ∈ ownKeys h v <-> is_Some (props o !! name) /\ name ∉ hidden o.
Proof.
  intros Hv Hl.
  assert (Hk : ownKeys h v
               = filter (fun name => name ∉ hidden o) (map_to_list (props o)).*1).
  { destruct v; try discriminate; simpl in *; injection Hv as ->; now rewrite Hl. }
  rewrite Hk, list_elem_of_filter, list_elem_of_fmap. split.
  - intros [Hh ([n x] & -> & Hx)]. apply elem_of_map_to_list in Hx. eauto.
  - intros [[x Hx] Hh]. split; [exact Hh|]. exists (name, x).
    split; [reflexivity|]. now apply elem_of_map_to_list.
Qed.

Lemma ownKeys_ref (h : Heap) v l : loc_of v = Some l -> ownKeys h v = ownKeys h (VObj l).
Proof. destruct v; simpl; intros [= ->]; reflexivity. Qed.

(** [for ... in] visits no name twice, and the names it visits that are own
    properties are the enumerable own properties. *)
Lemma chain_keys_NoDup fuel (h : Heap) l : NoDup (chain_keys fuel h l).
Proof.
  revert l. induction fuel as [|fuel IH]; intros l; [apply NoDup_nil_2|].
  cbn [chain_keys]. destruct (h !! l) as [ob|] eqn:Hl; [|apply NoDup_nil_2].
  apply NoDup_app. split; [apply ownKeys_NoDup|]. split.
  - intros name Hin Hin'.
    apply (ownKeys_elem h (VObj l) l ob name eq_refl Hl) in Hin as [[x Hx] _].
    apply list_elem_of_filter in Hin' as [Hnone _]. congruence.
  - apply NoDup_filter. destruct (proto ob) as [p|]; [|apply NoDup_nil_2].
    destruct (p <? l)%nat; [apply IH|apply NoDup_nil_2].
Qed.

Lemma forInKeys_NoDup (h : Heap) v : NoDup (forInKeys h v).
Proof. destruct v; try apply NoDup_nil_2; apply chain_keys_NoDup. Qed.

Lemma forInKeys_own (h : Heap) v l o name :
  loc_of v = Some l -> h !! l = Some o -> is_Some (props o !! name) ->
  name ∈ forInKeys h v <-> name ∈ ownKeys h v.
Proof.
  intros Hv Hl [x Hx].
  assert (Hk : exists inherited,
             forInKeys h v
             = ownKeys h v ++ filter (fun name => props o !! name = None) inherited).
  { destruct v; try discriminate; simpl in Hv; injection Hv as ->;
      cbn [forInKeys chain_keys]; rewrite Hl; eauto. }
  destruct Hk as (inherited & ->). rewrite elem_of_app. split; [|now left].
  intros [Hin|Hin]; [exact Hin|].
  apply list_elem_of_filter in Hin as [Hnone _]. congruence.
Qed.

Lemma extended_names (h hf : Heap) ol oo po sup names names' :
  (forall name, name ∈ names <-> name ∈ names') ->
  extended h hf ol oo po sup names -> extended h hf ol oo po sup names'.
Proof.
  intros Hn (Hlen & Hna & Hfr & (o' & Ho' & Hpr & Hco & Hhi & Hkeep) & Hinst).
  repeat split; try assumption.
  - exists o'. repeat split; try assumption.
    intros name Hnot. apply Hkeep. intros Hin. apply Hnot. now apply Hn.
  - intros name v Hin. apply Hinst. now apply Hn.
Qed.

Lemma ordinary_members_builtin (h : Heap) pl :
  ordinary_members h pl = true -> calls_builtin h pl = true.
Proof. unfold ordinary_members. now intros [? _]%andb_prop. Qed.

Lemma builtin_frame (h h' : Heap) pl :
  (forall l, l < length h -> h' !! l = h !! l) -> pl < length h ->
  ordinary_members h pl = true -> calls_builtin h' pl = true.
Proof.
  intros Hfr Hpl Hord. apply (calls_builtin_frame h); try assumption.
  now apply ordinary_members_builtin.
Qed.

Lemma assignable_members_elem (h : Heap) pl oo name :
  assignable_members h pl oo = true -> name ∈ ownKeys h (VObj pl) ->
  read_only oo name = false.
Proof.
  unfold assignable_members. intros Ha Hin.
  rewrite forallb_forall in Ha. apply negb_true_iff, Ha.
  now apply list_elem_of_In.
Qed.

Lemma assignable_members_object (h : Heap) pl oo :
  code oo = None -> assignable_members h pl oo = true.
Proof.
  intros Hc. unfold assignable_members. apply forallb_forall. intros name _.
  unfold read_only. now rewrite Hc.
Qed.

Lemma extend_spec obj props0 sup ol pl oo po (h : Heap) :
  loc_of obj = Some ol -> loc_of props0 = Some pl -> pl <> ol ->
  h !! ol = Some oo -> h !! pl = Some po ->
  calls_builtin h pl = true ->
  assignable_members h pl oo = true ->
  (truthy sup = true -> forall name v, props po !! name = Some v -> val_ok h v) ->
  exists hf, extend obj props0 sup h = Ok obj hf /\
             extended h hf ol oo po sup (ownKeys h props0).
Proof.
  intros Hobj Hprops Hne Hol Hpl Hm Has Hok.
  destruct (extend_loop_spec obj props0 sup ol pl po Hobj Hprops Hne
              (forInKeys h props0) h oo) as (hf & Hloop & Hext);
    try assumption.
  - apply forInKeys_NoDup.
  - intros name Hin Hs. apply (assignable_members_elem h pl); [assumption|].
    rewrite <- (ownKeys_ref h props0 pl Hprops).
    now apply (forInKeys_own h props0 pl po name Hprops Hpl Hs).
  - exists hf. split.
    + unfold extend, bind, heap_now. now rewrite Hloop.
    + eapply extended_names; [|exact Hext].
      intros name. rewrite list_elem_of_filter. split.
      * intros [Hs Hin]. now apply (forInKeys_own h props0 pl po name Hprops Hpl Hs).
      * intros Hin.
        pose proof (proj1 (ownKeys_elem h props0 pl po name Hprops Hpl) Hin)
          as [Hs _].
        split; [exact Hs|].
        now apply (forInKeys_own h props0 pl po name Hprops Hpl Hs).
Qed.








(** The installation of the witness, evaluated: [greet] overrides a callable
    of the parent table and calls super, so a wrapper (a function allocated
    by the installation) takes its place; [other] mentions the slot but
    overrides nothing and [count] is no callable, so both are installed as
    they are. *)
Example extend_installs_three_members :
  let hf := res_heap (extend (VObj Installing.target) (VObj Installing.members)
                        (VObj Installing.table) Installing.prepared) in
  own hf Installing.target "greet" = Some (VFun 12) /\
  callee hf (VFun 12)
  = Some (mkCallable wrap_src (wrap_body "greet" (VFun 7) (VObj Installing.table))) /\
  own hf Installing.target "other" = own Installing.prepared Installing.members "other" /\
  own hf Installing.target "count" = Some (VNum 0).
Proof. repeat split; vm_compute; reflexivity. Qed.


(** [create] installs the static members last, on the class value, and
    passes [Helper.extend] no parent table. *)
Lemma create_from_statics (d : ParsedArgs) (h : Heap) :
  create_from d h =
  (C <- create_from (mkParsedArgs (parent d) (pprops d) VUndef) ;;
   when (staticProps d) (extend C (staticProps d) VUndef) ;;;
   ret C) h.
Proof.
  unfold create_from, bind. cbn [parent pprops staticProps].
  destruct (newFunction _ h) as [C h1|e h1]; [|reflexivity].
  destruct (getProp C "prototype" h1) as [cp h2|e h2]; [|reflexivity].
  destruct (newFunction _ h2) as [i h3|e h3]; [|reflexivity].
  destruct (setProp cp "init" i h3) as [u h4|e h4]; [|reflexivity].
  destruct (when (parent d) (inherit (parent d) C) h4) as [x h5|e h5];
    [|reflexivity].
  match goal with
  | |- context [when (pprops d) ?m h5] =>
      destruct (when (pprops d) m h5) as [y h6|e h6]; [|reflexivity]
  end.
  unfold when at 2. cbn [truthy]. unfold ret at 2. reflexivity.
Qed.

(** C5 (as the code has it).  [create] installs the static members by
    [Helper.extend] on the class value with no parent table.  For static
    members none of which is named like a read-only property of a function
    ([name], [length], [caller], [arguments]), on a member set that resolves
    the builtin [hasOwnProperty] and has no member named [__proto__], that
    installation allocates no wrapper, writes no object but the class
    value, and leaves under the name of every enumerable own member the
    member's value itself, whatever its text; every lookup that starts from
    an object allocated before the class, the tables super is resolved in,
    reads what it read before. *)
Theorem static_members_are_installed_directly
  Class statics cl sl co so (h : Heap) :
  loc_of Class = Some cl -> loc_of statics = Some sl -> sl <> cl ->
  h !! cl = Some co -> h !! sl = Some so ->
  ordinary_members h sl = true -> assignable_members h sl co = true ->
  (forall d h0,
     create_from d h0 =
     (C <- create_from (mkParsedArgs (parent d) (pprops d) VUndef) ;;
      when (staticProps d) (extend C (staticProps d) VUndef) ;;;
      ret C) h0) /\
  exists hf, extend Class statics VUndef h = Ok Class hf /\
    length hf = length h /\
    (forall l, l <> cl -> hf !! l = h !! l) /\
    installs_directly hf cl so /\
    (forall l name, l < cl -> lookup_prop hf l name = lookup_prop h l name).
Proof.
  intros Hc Hs Hne Hcl Hsl Hord Has. split; [apply create_from_statics|].
  destruct (extend_spec Class statics VUndef cl sl co so h) as (hf & Hx & Hext);
    try assumption; [now apply ordinary_members_builtin|discriminate|].
  destruct Hext as (_ & Hna & Hfr & _ & Hinst). specialize (Hna eq_refl).
  assert (Hframe : forall l, l <> cl -> hf !! l = h !! l).
  { intros l Hl. destruct (decide (l < length h)) as [Hlt|Hge].
    - now apply Hfr.
    - rewrite (proj2 (lookup_ge_None h l)) by lia.
      apply lookup_ge_None. lia. }
  exists hf. split; [exact Hx|]. split; [exact Hna|]. split; [exact Hframe|].
  split.
  - intros name v Hv Hhid.
    assert (Hin : name ∈ ownKeys h statics).
    { apply (ownKeys_elem h statics sl so name Hs Hsl). eauto. }
    exact (Hinst name v Hin Hv).
  - intros l name Hl. apply lookup_prop_frame. intros l' Hl'. apply Hframe. lia.
Qed.

Lemma static_members_are_installed_directly_witness :
  (forall d h0,
     create_from d h0 =
     (C <- create_from (mkParsedArgs (parent d) (pprops d) VUndef) ;;
      when (staticProps d) (extend C (staticProps d) VUndef) ;;;
      ret C) h0) /\
  exists hf,
    extend (VFun Statics.C) (VObj Statics.statics) VUndef Statics.prepared
    = Ok (VFun Statics.C) hf /\
    length hf = length Statics.prepared /\
    (forall l, l <> Statics.C -> hf !! l = Statics.prepared !! l) /\
    installs_directly hf Statics.C
      (default (mkObj ∅ [] None None) (Statics.prepared !! Statics.statics)) /\
    (forall l name, l < Statics.C ->
       lookup_prop hf l name = lookup_prop Statics.prepared l name).
Proof.
  apply (static_members_are_installed_directly
           (VFun Statics.C) (VObj Statics.statics) Statics.C Statics.statics
           (default (mkObj ∅ [] None None) (Statics.prepared !! Statics.C))
           (default (mkObj ∅ [] None None) (Statics.prepared !! Statics.statics))
           Statics.prepared).
  - reflexivity.
  - reflexivity.
  - vm_compute. lia.
  - vm_compute. reflexivity.
  - vm_compute. reflexivity.
  - vm_compute. reflexivity.
  - vm_compute. reflexivity.
Defined.

(** The same through [create]: the static [make], whose text contains the
    token and whose name the parent's table defines, is the class value's
    own property as given, no wrapper; an instance does not see it. *)
Example create_leaves_static_unwrapped :
  match Statics.whole heap0 with
  | Ok (VFun c) h =>
      own h c "make" = Some (VFun 10) /\
      callee h (VFun 10) = Some Statics.make /\
      length h = 21 /\
      own h c "version" = Some (VNum 1) /\
      lookup_prop h c "prototype" = VObj 20 /\
      lookup_prop h 20 "version" = VUndef /\
      lookup_prop h 20 "make" = VFun 3
  | _ => False
  end.
Proof. vm_compute. repeat split; reflexivity. Qed.

(** C5, the claim as written fails: in [Class.create({}, {name: 'Foo'})]
    the static member [name] is not installed.  The class value is a
    function, its own [name] is read-only, the assignment of line 37 throws
    in strict mode and [create] ends with that TypeError. *)
Lemma static_member_named_name_makes_create_throw :
  exists h,
    StaticName.script heap0
    = Raise (TypeError "cannot assign to a read-only property") h /\
    own h StaticName.statics "name" = Some (VStr "Foo") /\
    callee h (VFun StaticName.C) = Some (mkCallable Class_src Class_body) /\
    own h StaticName.C "name" = None.
Proof. eexists. repeat split; vm_compute; reflexivity. Qed.

(** ** The prototype linker *)

Lemma own_lookup (h : Heap) l name v :
  own h l name = Some v -> exists o, h !! l = Some o /\ props o !! name = Some v.
Proof.
  unfold own. destruct (h !! l) as [o|]; [|discriminate]. simpl. eauto.
Qed.

Lemma createObject_ref pp t (h : Heap) :
  loc_of pp = Some t ->
  createObject pp h = Ok (VObj (length h)) (h ++ [mkObj ∅ [] (Some t) None]).
Proof. destruct pp; simpl; intros [= ->]; reflexivity. Qed.

Lemma inherit_eq p c (h : Heap) co pp t :
  h !! c = Some co -> p <> c -> own h p "prototype" = Some pp ->
  loc_of pp = Some t ->
  inherit (VFun p) (VFun c) h =
  Ok (VFun c) (<[c := linked co (length h) pp]> (h ++ [child_table c t])).
Proof.
  intros Hc Hne Hown Ht. apply own_lookup in Hown as (po & Hp & Hpp).
  pose proof (lookup_lt_Some _ _ _ Hc) as Hclt.
  pose proof (lookup_lt_Some _ _ _ Hp) as Hplt.
  unfold inherit, bind. cbn [getProp].
  rewrite (lookup_prop_own _ _ _ _ _ Hp Hpp), (createObject_ref _ _ _ Ht).
  cbn [setProp]. rewrite (lookup_app_l_Some _ _ _ _ Hc).
  rewrite read_only_other by reflexivity.
  rewrite lookup_prop_set_own by (now apply lookup_app_l_Some).
  cbn [setProp]. rewrite list_lookup_insert_ne by lia. rewrite lookup_alloc0.
  cbn [lookup list_lookup read_only code existsb].
  erewrite (lookup_prop_own _ p po);
    [|rewrite !list_lookup_insert_ne by lia; now apply lookup_app_l_Some|exact Hpp].
  rewrite list_lookup_insert_ne by lia.
  rewrite list_lookup_insert_eq by (rewrite length_app; lia).
  rewrite read_only_other by reflexivity.
  rewrite (list_insert_insert_ne _ (length h) c) by lia.
  rewrite list_insert_insert_eq.
  pose proof (insert_alloc h [mkObj ∅ [] (Some t) None] 0
                (set_own "constructor" (VFun c) (mkObj ∅ [] (Some t) None))) as E.
  rewrite Nat.add_0_r in E. rewrite E. reflexivity.
Qed.

(** C8.  [Helper.inherit] on a parent [p] and a child [c] writes the child
    and allocates the child's new member table, nothing else: the parent
    class value, the parent's table and every other object of the heap are
    what they were.  The child's [prototype] is the new table, which
    delegates to the parent's table and names the child as constructor, and
    the child's [__super__] is the parent's table. *)
Theorem inherit_leaves_parent_untouched p c (h : Heap) co pp t :
  h !! c = Some co -> p <> c -> own h p "prototype" = Some pp ->
  loc_of pp = Some t ->
  exists h', inherit (VFun p) (VFun c) h = Ok (VFun c) h' /\
    (forall l, l < length h -> l <> c -> h' !! l = h !! l) /\
    h' !! p = h !! p /\
    (forall name, t < length h -> t <> c -> own h' t name = own h t name) /\
    h' !! c = Some (linked co (length h) pp) /\
    h' !! length h = Some (child_table c t) /\
    length h' = S (length h).
Proof.
  intros Hc Hne Hown Ht. rewrite (inherit_eq _ _ _ _ _ _ Hc Hne Hown Ht).
  eexists. split; [reflexivity|].
  pose proof (lookup_lt_Some _ _ _ Hc) as Hclt.
  apply own_lookup in Hown as (po & Hp & _).
  pose proof (lookup_lt_Some _ _ _ Hp) as Hplt.
  assert (Hfr : forall l, l < length h -> l <> c ->
            <[c := linked co (length h) pp]> (h ++ [child_table c t]) !! l = h !! l).
  { intros l Hl Hlc. rewrite list_lookup_insert_ne by congruence.
    now apply lookup_app_l. }
  split; [exact Hfr|]. split; [now apply Hfr|]. split.
  { intros name Hlt Htc. unfold own. now rewrite Hfr. }
  split; [apply list_lookup_insert_eq; rewrite length_app; lia|].
  split.
  - rewrite list_lookup_insert_ne by lia. now rewrite lookup_alloc0.
  - rewrite length_insert, length_app. simpl. lia.
Qed.

Lemma inherit_leaves_parent_untouched_witness :
  exists h', inherit (VFun 6) (VFun 13) Statics.prepared = Ok (VFun 13) h' /\
    (forall l, l < length Statics.prepared -> l <> 13 ->
               h' !! l = Statics.prepared !! l) /\
    h' !! 6 = Statics.prepared !! 6 /\
    (forall name, 7 < length Statics.prepared -> 7 <> 13 ->
                  own h' 7 name = own Statics.prepared 7 name) /\
    h' !! 13
    = Some (linked (default (mkObj ∅ [] None None) (Statics.prepared !! 13))
              (length Statics.prepared) (VObj 7)) /\
    h' !! length Statics.prepared = Some (child_table 13 7) /\
    length h' = S (length Statics.prepared).
Proof.
  apply (inherit_leaves_parent_untouched 6 13 Statics.prepared
           (default (mkObj ∅ [] None None) (Statics.prepared !! 13)) (VObj 7) 7).
  - vm_compute. reflexivity.
  - lia.
  - vm_compute. reflexivity.
  - reflexivity.
Defined.

(** ** The class factory on a subclass *)

(** The first four statements of [create]: the class objects are allocated
    and the rest runs on them. *)
Lemma create_from_prefix (d : ParsedArgs) (h : Heap) :
  create_from d h =
  (when (parent d) (inherit (parent d) (VFun (length h))) ;;;
   when (pprops d) (cp' <- getProp (VFun (length h)) "prototype" ;;
                    sup <- getProp (VFun (length h)) "__super__" ;;
                    extend cp' (pprops d) sup) ;;;
   when (staticProps d) (extend (VFun (length h)) (staticProps d) VUndef) ;;;
   ret (VFun (length h))) (h ++ class_objects (length h)).
Proof.
  unfold create_from. unfold bind at 1. rewrite newFunction_eq.
  unfold bind at 1. cbn [getProp].
  erewrite lookup_prop_own; [|rewrite lookup_alloc0; reflexivity|reflexivity].
  unfold bind at 1. rewrite newFunction_eq.
  unfold bind at 1. cbn [setProp].
  rewrite length_app. cbn [length]. rewrite <- app_assoc. cbn [app].
  rewrite lookup_alloc. cbn [lookup list_lookup].
  rewrite insert_alloc. replace (length h + 2 + 1) with (length h + 3) by lia.
  reflexivity.
Qed.

Lemma create_from_child p members (h : Heap) pp t :
  own h p "prototype" = Some pp -> loc_of pp = Some t ->
  create_from (mkParsedArgs (VFun p) members VUndef) h =
  match when members (extend (VObj (length h + 4)) members pp)
          (subclass_heap h pp t) with
  | Ok _ hf => Ok (VFun (length h)) hf
  | Raise e hf => Raise e hf
  end.
Proof.
  intros Hown Ht. rewrite create_from_prefix. cbn [parent pprops staticProps].
  pose proof Hown as Hown'. apply own_lookup in Hown' as (po & Hp & Hpp).
  pose proof (lookup_lt_Some _ _ _ Hp) as Hplt.
  assert (Hne : p <> length h) by lia.
  unfold bind at 1. unfold when at 1. cbn [truthy].
  rewrite (inherit_eq p (length h) (h ++ class_objects (length h))
             (class_fn (length h)) pp t);
    [|rewrite lookup_alloc0; reflexivity|exact Hne
     |unfold own; now rewrite (lookup_app_l_Some _ _ _ _ Hp)|assumption].
  rewrite length_app. change (length (class_objects (length h))) with 4.
  rewrite <- app_assoc. fold (subclass_heap h pp t).
  assert (Hcl : subclass_heap h pp t !! length h
                = Some (linked (class_fn (length h)) (length h + 4) pp)).
  { unfold subclass_heap. apply list_lookup_insert_eq.
    rewrite !length_app. cbn [length class_objects]. lia. }
  unfold bind at 1. unfold when. cbn [truthy]. destruct (truthy members).
  - unfold bind at 1. cbn [getProp].
    erewrite (lookup_prop_own _ _ _ "prototype"); [|exact Hcl|reflexivity].
    unfold bind at 1. cbn [getProp].
    erewrite (lookup_prop_own _ _ _ "__super__"); [|exact Hcl|apply lookup_insert_eq].
    destruct (extend (VObj (length h + 4)) members pp (subclass_heap h pp t));
      reflexivity.
  - reflexivity.
Qed.

Lemma subclass_heap_facts (h : Heap) pp t :
  length (subclass_heap h pp t) = length h + 5 /\
  (forall l, l < length h -> subclass_heap h pp t !! l = h !! l) /\
  subclass_heap h pp t !! length h
  = Some (linked (class_fn (length h)) (length h + 4) pp) /\
  subclass_heap h pp t !! (length h + 4) = Some (child_table (length h) t).
Proof.
  unfold subclass_heap. repeat split.
  - rewrite length_insert, !length_app. cbn [length class_objects]. lia.
  - intros l Hl. rewrite list_lookup_insert_ne by lia. now apply lookup_app_l.
  - apply list_lookup_insert_eq. rewrite !length_app. cbn [length class_objects]. lia.
  - rewrite list_lookup_insert_ne by lia. now rewrite lookup_alloc.
Qed.

Lemma subclass_created p members (h : Heap) pp t :
  own h p "prototype" = Some pp -> loc_of pp = Some t ->
  omits_init h members ->
  exists hf tbl,
    create (subclass_args p members) h = Ok (VFun (length h)) hf /\
    length h + 5 <= length hf /\
    (forall l, l < length h -> hf !! l = h !! l) /\
    hf !! length h = Some (linked (class_fn (length h)) (length h + 4) pp) /\
    hf !! (length h + 4) = Some tbl /\
    proto tbl = Some t /\ props tbl !! "init" = None.
Proof.
  intros Hown Ht Hom.
  destruct (subclass_heap_facts h pp t) as (Hlen & Hfr & Hcl & Htb).
  destruct members as [pl|]; unfold create.
  - destruct Hom as (po & Hpl & Hinit & Hord & Hok).
    pose proof (lookup_lt_Some _ _ _ Hpl) as Hplt.
    change (parseArgs (subclass_args p (Some pl)))
      with (@inr Exn _ (mkParsedArgs (VFun p) (VObj pl) VUndef)).
    cbv iota. rewrite (create_from_child _ _ _ _ _ Hown Ht).
    unfold when. cbn [truthy].
    assert (Hne : pl <> length h + 4) by lia.
    destruct (extend_spec (VObj (length h + 4)) (VObj pl) pp (length h + 4) pl
                (child_table (length h) t) po (subclass_heap h pp t))
      as (hf & Hx & Hext); try reflexivity; try assumption.
    { rewrite Hfr by assumption. exact Hpl. }
    { now apply (builtin_frame h). }
    { now apply assignable_members_object. }
    { intros _ name v Hv. eapply val_ok_mono; [|eapply Hok; exact Hv]. lia. }
    destruct Hext as (Hge & _ & Hfrx & (o' & Ho' & Hpr & _ & _ & Hkeep) & _).
    rewrite Hx. exists hf, o'. split; [reflexivity|]. split; [lia|]. split.
    { intros l Hl. rewrite Hfrx by lia. now apply Hfr. }
    split; [rewrite Hfrx by lia; exact Hcl|]. split; [exact Ho'|].
    split; [exact Hpr|]. rewrite Hkeep; [reflexivity|].
    intros Hin.
    apply (ownKeys_elem _ (VObj pl) pl po "init") in Hin as [[x Hx'] _];
      [congruence|reflexivity|].
    rewrite Hfr by assumption. exact Hpl.
  - change (parseArgs (subclass_args p None))
      with (@inr Exn _ (mkParsedArgs (VFun p) VUndef VUndef)).
    cbv iota. rewrite (create_from_child _ _ _ _ _ Hown Ht).
    unfold when. cbn [truthy]. unfold ret.
    exists (subclass_heap h pp t), (child_table (length h) t).
    split; [reflexivity|]. split; [lia|]. split; [exact Hfr|].
    split; [exact Hcl|]. split; [exact Htb|]. split; reflexivity.
Qed.

Lemma construct_class c tb (hf : Heap) co tbl n args :
  hf !! c = Some co -> code co = Some (mkCallable Class_src Class_body) ->
  props co !! "prototype" = Some (VObj tb) -> hf !! tb = Some tbl ->
  constructs_with (S n) (VFun c) args hf tb (lookup_prop hf tb "init").
Proof.
  intros Hc Hcode Hpr Htb. pose proof (lookup_lt_Some _ _ _ Htb) as Hlt.
  unfold constructs_with, construct, callee. rewrite Hc, Hcode. cbn [getProp].
  rewrite (lookup_prop_own _ _ _ _ _ Hc Hpr). cbn [body].
  fold (instance_of tb). unfold Class_body at 1.
  assert (Hinit : lookup_prop (hf ++ [instance_of tb]) (length hf) "init"
                  = lookup_prop hf tb "init").
  { erewrite lookup_prop_delegate;
      [|rewrite lookup_alloc0; reflexivity|reflexivity|reflexivity|exact Hlt].
    apply lookup_prop_frame. intros l' Hl'. apply lookup_app_l. lia. }
  rewrite run_PGet. cbn [getProp]. rewrite Hinit.
  destruct (isFn (lookup_prop hf tb "init")); [|reflexivity].
  rewrite run_PGet. cbn [getProp]. rewrite Hinit. rewrite run_PCall.
  destruct (callee (hf ++ [instance_of tb]) (lookup_prop hf tb "init")) as [ci|];
    [|reflexivity].
  destruct (run n (body ci (VObj (length hf)) args) (hf ++ [instance_of tb]))
    as [[v h'|e h']|]; reflexivity.
Qed.

Lemma root_class_holds (h : Heap) : root_class h.
Proof.
  unfold root_class. split.
  { unfold create. cbn [parseArgs length Nat.eqb Nat.leb].
    now apply create_from_root. }
  split.
  { eapply lookup_prop_own; [rewrite lookup_alloc; reflexivity|reflexivity]. }
  split.
  { unfold callee. now rewrite lookup_alloc. }
  intros n args. rewrite <- app_assoc. apply construct_root.
Qed.

(** C9.  A root class receives the empty function as default [init] and is
    constructible.  A subclass whose members (an ordinary member set: its
    [hasOwnProperty] is the builtin) define no [init] is built
    without error, the initializer lookup from its member table falls
    through to the parent's table, so to the nearest ancestor's [init], and
    construction runs that initializer on the new instance; with the default
    [init] as nearest one, construction returns the instance. *)
Theorem init_defaults_and_falls_through p members (h : Heap) pp t :
  own h p "prototype" = Some pp -> loc_of pp = Some t -> t < length h ->
  omits_init h members ->
  root_class h /\ subclass_without_init p members h t.
Proof.
  intros Hown Ht Hlt Hom. split; [apply root_class_holds|].
  destruct (subclass_created p members h pp t Hown Ht Hom)
    as (hf & tbl & Hcreate & Hlen & Hfr & Hcl & Htb & Hproto & Hnoinit).
  assert (Hpr : props (linked (class_fn (length h)) (length h + 4) pp) !! "prototype"
                = Some (VObj (length h + 4))).
  { unfold linked. simpl. rewrite lookup_insert_ne by discriminate.
    apply lookup_insert_eq. }
  assert (Hinit : lookup_prop hf (length h + 4) "init" = lookup_prop h t "init").
  { rewrite (lookup_prop_delegate _ _ _ _ _ Htb Hnoinit Hproto) by lia.
    apply lookup_prop_frame. intros l' Hl'. apply Hfr. lia. }
  assert (Hcw : forall n args,
            constructs_with (S n) (VFun (length h)) args hf (length h + 4)
              (lookup_prop h t "init")).
  { intros n args. rewrite <- Hinit.
    exact (construct_class _ _ _ _ _ n args Hcl eq_refl Hpr Htb). }
  exists hf. split; [exact Hcreate|]. split.
  { exact (lookup_prop_own _ _ _ _ _ Hcl Hpr). }
  split; [exact Hinit|]. split; [exact Hcw|].
  intros n args ci Hci Hbody. specialize (Hcw (S n) args).
  unfold constructs_with in Hcw. rewrite Hcw. clear Hcw.
  destruct (lookup_prop h t "init") as [| | | | | |f]; try discriminate.
  change (isFn (VFun f)) with true. cbv iota. rewrite run_PCall.
  assert (Hf : callee (hf ++ [instance_of (length h + 4)]) (VFun f) = Some ci).
  { unfold callee in *. destruct (h !! f) as [fo|] eqn:Hfo; [|discriminate].
    pose proof (lookup_lt_Some _ _ _ Hfo) as Hflt.
    rewrite lookup_app_l by lia. rewrite Hfr by lia. now rewrite Hfo. }
  rewrite Hf, Hbody. reflexivity.
Qed.

Lemma init_defaults_and_falls_through_witness :
  root_class Statics.prepared /\
  subclass_without_init 6 (Some 15) Statics.prepared 7.
Proof.
  apply (init_defaults_and_falls_through 6 (Some 15) Statics.prepared (VObj 7) 7).
  - vm_compute. reflexivity.
  - reflexivity.
  - vm_compute. lia.
  - exists (default (mkObj ∅ [] None None) (Statics.prepared !! 15)).
    split; [vm_compute; reflexivity|]. split; [vm_compute; reflexivity|].
    split; [vm_compute; reflexivity|].
    apply (bool_decide_unpack
             (map_Forall (fun (_ : string) v => val_ok Statics.prepared v) _)).
    vm_compute. exact I.
Defined.

(** The witness, evaluated: [C = create(P, {m})] defines no [init], the
    lookup from its table reaches the default [init] of the root class [P],
    and [new C()] returns a fresh instance. *)
Example subclass_constructs :
  match create (subclass_args 6 (Some 15)) Statics.prepared with
  | Ok C h =>
      lookup_prop h 25 "init" = VFun 8 /\
      callee h (VFun 8) = Some (mkCallable empty_src empty_body) /\
      construct 2 C [] h = Some (Ok (VObj 26) (h ++ [instance_of 25]))
  | Raise _ _ => False
  end.
Proof. vm_compute. repeat split; reflexivity. Qed.

(** * Further properties of the code *)

(** ** The detection of super calls *)


(** X8.  The functions the library makes itself: the text of every wrapper
    contains [this.super], so a wrapper passed on as a member is detected
    like any super-calling function; the class constructor and the default
    [init] are not. *)
Theorem wrappers_are_detected (h : Heap) (w : loc) (b : Value -> list Value -> Prog) :
  (callee h (VFun w) = Some (mkCallable wrap_src b) ->
   hasFnSuperCall h (VFun w) = true) /\
  (callee h (VFun w) = Some (mkCallable Class_src b) ->
   hasFnSuperCall h (VFun w) = false) /\
  (callee h (VFun w) = Some (mkCallable empty_src b) ->
   hasFnSuperCall h (VFun w) = false).
Proof.
  unfold hasFnSuperCall, toString.
  repeat split; intros ->; vm_compute; reflexivity.
Qed.

Lemma wrappers_are_detected_witness :
  hasFnSuperCall FalsePositive.started FalsePositive.wrapper = true.
Proof.
  apply (proj1 (wrappers_are_detected FalsePositive.started 18
                  (wrap_body "m" FalsePositive.original FalsePositive.tableP))).
  vm_compute. reflexivity.
Defined.

(** ** The wrapper on unusual receivers, and what it leaves behind *)

(** X9.  Called on a receiver that is no object, a wrapper throws a
    TypeError before it reaches the original callable, and the heap is as it
    was. *)
Theorem wrapper_needs_object_receiver
  n fnName fn sup this args (h : Heap) :
  loc_of this = None ->
  exists msg,
    run (S n) (wrap_body fnName fn sup this args) h = Some (Raise (TypeError msg) h).
Proof.
  intros Hthis. unfold wrap_body.
  destruct this; try discriminate; rewrite run_PGet; cbn [getProp];
    try (eexists; reflexivity);
    unfold ret; rewrite run_PGet;
    (destruct sup; cbn [getProp]; unfold raise, ret;
     try (eexists; reflexivity); rewrite run_PSet; eexists; reflexivity).
Qed.

Lemma wrapper_needs_object_receiver_witness :
  exists msg,
    run 2 (wrap_body "m" FalsePositive.original FalsePositive.tableP (VNum 3) [])
      FalsePositive.started
    = Some (Raise (TypeError msg) FalsePositive.started).
Proof.
  apply wrapper_needs_object_receiver. reflexivity.
Defined.

(** X10.  A wrapped call that returns leaves [super] as an own property of
    the receiver, holding what a read of the slot gave before the call, also
    when the receiver had no such property: from then on [for ... in] on the
    instance lists [super]. *)
Theorem wrapper_leaves_own_super_property
  n fnName fn sup l args (h h1 : Heap) v :
  run n (wrap_body fnName fn sup (VObj l) args) h = Some (Ok v h1) ->
  exists o1, h1 !! l = Some o1 /\
    props o1 !! "super" = Some (lookup_prop h l "super") /\
    ("super" ∉ hidden o1 -> "super" ∈ ownKeys h1 (VObj l)).
Proof.
  destruct n as [|n]; [discriminate|]. unfold wrap_body.
  rewrite run_PGet. cbn [getProp]. rewrite run_PGet.
  destruct (getProp sup fnName h) as [m h'|e h'] eqn:Hg; [|discriminate].
  pose proof (getProp_heap sup fnName h) as Hh. rewrite Hg in Hh. simpl in Hh.
  subst h'. rewrite run_PSet.
  destruct (setProp (VObj l) "super" m h) as [[] hb|e hb]; [|discriminate].
  rewrite run_PCall. destruct (callee hb fn) as [c|]; [|discriminate].
  destruct (run n (body c (VObj l) args) hb) as [[r h2|e h2]|]; try discriminate.
  rewrite run_PSet.
  destruct (setProp (VObj l) "super" (lookup_prop h l "super") h2)
    as [[] h3|e h3] eqn:Hs; [|discriminate].
  rewrite run_PRet. intros [= <- <-].
  apply setProp_Ok in Hs as (l' & ob & [= <-] & Hl & ->).
  assert (Hnew : <[l := set_own "super" (lookup_prop h l "super") ob]> h2 !! l
                 = Some (set_own "super" (lookup_prop h l "super") ob)).
  { apply list_lookup_insert_eq. now apply lookup_lt_Some in Hl. }
  eexists. split; [exact Hnew|]. split; [apply lookup_insert_eq|].
  intros Hhid. apply (ownKeys_elem _ (VObj l) l _ "super" eq_refl Hnew).
  split; [|exact Hhid]. eexists. apply lookup_insert_eq.
Qed.

Lemma wrapper_leaves_own_super_property_witness :
  own FalsePositive.started FalsePositive.c "super" = None /\
  exists o1,
    res_heap (default (Ok VUndef [])
                (run 2 (wrap_body "m" FalsePositive.original FalsePositive.tableP
                          (VObj FalsePositive.c) []) FalsePositive.started))
      !! FalsePositive.c = Some o1 /\
    props o1 !! "super"
    = Some (lookup_prop FalsePositive.started FalsePositive.c "super") /\
    ("super" ∉ hidden o1 ->
     "super" ∈ ownKeys
       (res_heap (default (Ok VUndef [])
                    (run 2 (wrap_body "m" FalsePositive.original
                              FalsePositive.tableP (VObj FalsePositive.c) [])
                       FalsePositive.started)))
       (VObj FalsePositive.c)).
Proof.
  split; [vm_compute; reflexivity|].
  apply (wrapper_leaves_own_super_property 2 "m" FalsePositive.original
           FalsePositive.tableP FalsePositive.c [] FalsePositive.started _
           (VStr "C")).
  vm_compute. reflexivity.
Defined.

(** ** The descriptor of the arguments *)

(** X1.  Whatever [Helper.parseArgs] returns is well formed: the parent is
    absent or a function, the instance and static members are absent or
    answer [object] to the type test, and static members come only with
    instance members. *)
Theorem parseArgs_descriptor_shape (args : list Value) (d : ParsedArgs) :
  parseArgs args = inr d ->
  (parent d = VUndef \/ isFn (parent d) = true) /\
  (pprops d = VUndef \/ typeof (pprops d) = "object") /\
  (staticProps d = VUndef \/ typeof (staticProps d) = "object") /\
  (pprops d = VUndef -> staticProps d = VUndef).
Proof.
  rewrite parseArgs_spec.
  destruct args as [|a [|b [|c rest]]]; cbn [classify_spec].
  - intros [= <-]. simpl. tauto.
  - destruct a; simpl; intros [= <-]; simpl; tauto.
  - destruct a, b; simpl; intros [= <-]; simpl;
      repeat split; auto; discriminate.
  - destruct a, b, c; simpl; intros [= <-]; simpl;
      repeat split; auto; discriminate.
Qed.

Lemma parseArgs_descriptor_shape_witness :
  (parent (mkParsedArgs (VFun 5) (VObj 14) VNull) = VUndef \/
   isFn (parent (mkParsedArgs (VFun 5) (VObj 14) VNull)) = true) /\
  (pprops (mkParsedArgs (VFun 5) (VObj 14) VNull) = VUndef \/
   typeof (pprops (mkParsedArgs (VFun 5) (VObj 14) VNull)) = "object") /\
  (staticProps (mkParsedArgs (VFun 5) (VObj 14) VNull) = VUndef \/
   typeof (staticProps (mkParsedArgs (VFun 5) (VObj 14) VNull)) = "object") /\
  (pprops (mkParsedArgs (VFun 5) (VObj 14) VNull) = VUndef ->
   staticProps (mkParsedArgs (VFun 5) (VObj 14) VNull) = VUndef).
Proof.
  apply (parseArgs_descriptor_shape [VFun 5; VObj 14; VNull; VNum 7]).
  reflexivity.
Defined.

(** ** Parents that cannot be linked *)

(** X13.  When the parent's [prototype] property holds a primitive other
    than [null], the arguments pass [parseArgs] but [Object.create] rejects
    the prototype: [create] throws that TypeError, not 'Invalid arguments',
    and no object that existed before is changed (the class objects already
    allocated are left unreferenced). *)
Theorem create_rejects_primitive_prototype
  (args : list Value) (d : ParsedArgs) p pp (h : Heap) :
  parseArgs args = inr d -> parent d = VFun p ->
  own h p "prototype" = Some pp -> loc_of pp = None -> pp <> VNull ->
  create args h
  = Raise (TypeError "Object prototype may only be an Object or null")
      (h ++ class_objects (length h)).
Proof.
  intros Hparse Hpar Hown Hloc Hnull. unfold create. rewrite Hparse.
  rewrite create_from_prefix, Hpar. unfold bind at 1. unfold when at 1.
  cbn [truthy]. apply own_lookup in Hown as (po & Hp & Hpp).
  unfold inherit. unfold bind at 1. cbn [getProp].
  erewrite lookup_prop_own; [|apply lookup_app_l_Some; exact Hp|exact Hpp].
  unfold bind at 1.
  destruct pp; try discriminate; try contradiction; reflexivity.
Qed.

Lemma create_rejects_primitive_prototype_witness :
  create [VFun 3; VObj 5]
    (res_heap (setProp (VFun 3) "prototype" (VNum 5) Statics.prepared))
  = Raise (TypeError "Object prototype may only be an Object or null")
      (res_heap (setProp (VFun 3) "prototype" (VNum 5) Statics.prepared)
       ++ class_objects
            (length (res_heap (setProp (VFun 3) "prototype" (VNum 5)
                                 Statics.prepared)))).
Proof.
  apply (create_rejects_primitive_prototype [VFun 3; VObj 5]
           (mkParsedArgs (VFun 3) (VObj 5) VUndef) 3 (VNum 5)).
  - reflexivity.
  - reflexivity.
  - vm_compute. reflexivity.
  - reflexivity.
  - discriminate.
Defined.

(** ** The fallback of [createObject] *)

(** X12.  For a prototype that is an object of the heap, the fallback of
    [Helper.createObject] gives what [Object.create] gives: a fresh object
    with no own property that delegates to the prototype, so that every
    property read through it reads the prototype.  (The fallback allocates
    its helper function first, so the object sits two places further.) *)
Theorem createObject_fallback_agrees_on_objects
  n (prototype : Value) p (h : Heap) :
  loc_of prototype = Some p -> p < length h ->
  createObject prototype h
  = Ok (VObj (length h)) (h ++ [instance_of p]) /\
  createObject_fallback (S n) prototype h
  = Some (Ok (VObj (length h + 2))
            (h ++ fallback_objects (length h) prototype p)) /\
  forall name,
    lookup_prop (h ++ [instance_of p]) (length h) name = lookup_prop h p name /\
    lookup_prop (h ++ fallback_objects (length h) prototype p) (length h + 2) name
    = lookup_prop h p name.
Proof.
  intros Hp Hlt. split; [now apply createObject_ref|]. split.
  { unfold createObject_fallback, bind. rewrite newFunction_eq.
    cbn [setProp]. rewrite lookup_alloc0. cbn [lookup list_lookup].
    rewrite read_only_other by reflexivity.
    pose proof (insert_alloc h
      [mkObj {["prototype" := VObj (length h + 1)]} ["prototype"]
         (Some FunctionPrototype) (Some (mkCallable empty_src empty_body));
       mkObj {["constructor" := VFun (length h)]} ["constructor"]
         (Some ObjectPrototype) None] 0
      (set_own "prototype" prototype
         (mkObj {["prototype" := VObj (length h + 1)]} ["prototype"]
            (Some FunctionPrototype) (Some (mkCallable empty_src empty_body)))))
      as E.
    rewrite Nat.add_0_r in E. rewrite E. clear E. cbn [list_insert insert].
    unfold ret, construct, callee. rewrite lookup_alloc0.
    cbn [lookup list_lookup code set_own getProp].
    erewrite lookup_prop_own;
      [|rewrite lookup_alloc0; reflexivity|apply lookup_insert_eq].
    cbn [body]. unfold empty_body. rewrite run_PRet.
    rewrite length_app. cbn [length].
    rewrite <- app_assoc. cbn [app]. unfold fallback_objects, instance_of.
    assert (Hm : <["prototype" := prototype]>
                   ({["prototype" := VObj (length h + 1)]} : gmap string Value)
                 = {["prototype" := prototype]}).
    { apply insert_singleton_eq. }
    unfold set_own. cbn [props hidden proto code]. rewrite Hm.
    destruct prototype; try discriminate;
      simpl in Hp; injection Hp as ->; reflexivity. }
  intros name. split.
  - erewrite lookup_prop_delegate;
      [|rewrite lookup_alloc0; reflexivity|reflexivity|reflexivity|exact Hlt].
    apply lookup_prop_frame. intros l' Hl'. apply lookup_app_l. lia.
  - erewrite lookup_prop_delegate;
      [|rewrite lookup_alloc; reflexivity|reflexivity|reflexivity|lia].
    apply lookup_prop_frame. intros l' Hl'. apply lookup_app_l. lia.
Qed.

Lemma createObject_fallback_agrees_on_objects_witness :
  createObject (VObj 7) Statics.prepared
  = Ok (VObj (length Statics.prepared)) (Statics.prepared ++ [instance_of 7]) /\
  createObject_fallback 1 (VObj 7) Statics.prepared
  = Some (Ok (VObj (length Statics.prepared + 2))
            (Statics.prepared
             ++ fallback_objects (length Statics.prepared) (VObj 7) 7)) /\
  forall name,
    lookup_prop (Statics.prepared ++ [instance_of 7]) (length Statics.prepared) name
    = lookup_prop Statics.prepared 7 name /\
    lookup_prop
      (Statics.prepared ++ fallback_objects (length Statics.prepared) (VObj 7) 7)
      (length Statics.prepared + 2) name
    = lookup_prop Statics.prepared 7 name.
Proof.
  apply (createObject_fallback_agrees_on_objects 0 (VObj 7) 7 Statics.prepared).
  - reflexivity.
  - vm_compute. lia.
Defined.

(** X14.  Off the objects the two differ.  [Object.create(null)] gives an
    object that delegates to nothing and [Object.create] of another
    primitive throws; the fallback assigns the value to [F.prototype], and
    [new F()] then delegates to [Object.prototype]: it never throws and
    never gives an object without delegation. *)
Theorem createObject_fallback_differs_off_objects
  n (prototype : Value) (h : Heap) :
  loc_of prototype = None ->
  createObject_fallback (S n) prototype h
  = Some (Ok (VObj (length h + 2))
            (h ++ fallback_objects (length h) prototype ObjectPrototype)) /\
  createObject VNull h = Ok (VObj (length h)) (h ++ [mkObj ∅ [] None None]) /\
  (prototype <> VNull ->
   createObject prototype h
   = Raise (TypeError "Object prototype may only be an Object or null") h).
Proof.
  intros Hp. split; [|split; [reflexivity|]].
  - unfold createObject_fallback, bind. rewrite newFunction_eq.
    cbn [setProp]. rewrite lookup_alloc0. cbn [lookup list_lookup].
    rewrite read_only_other by reflexivity.
    pose proof (insert_alloc h
      [mkObj {["prototype" := VObj (length h + 1)]} ["prototype"]
         (Some FunctionPrototype) (Some (mkCallable empty_src empty_body));
       mkObj {["constructor" := VFun (length h)]} ["constructor"]
         (Some ObjectPrototype) None] 0
      (set_own "prototype" prototype
         (mkObj {["prototype" := VObj (length h + 1)]} ["prototype"]
            (Some FunctionPrototype) (Some (mkCallable empty_src empty_body)))))
      as E.
    rewrite Nat.add_0_r in E. rewrite E. clear E. cbn [list_insert insert].
    unfold ret, construct, callee. rewrite lookup_alloc0.
    cbn [lookup list_lookup code set_own getProp].
    erewrite lookup_prop_own;
      [|rewrite lookup_alloc0; reflexivity|apply lookup_insert_eq].
    cbn [body]. unfold empty_body. rewrite run_PRet.
    rewrite length_app. cbn [length].
    rewrite <- app_assoc. cbn [app]. unfold fallback_objects, instance_of.
    assert (Hm : <["prototype" := prototype]>
                   ({["prototype" := VObj (length h + 1)]} : gmap string Value)
                 = {["prototype" := prototype]}).
    { apply insert_singleton_eq. }
    unfold set_own. cbn [props hidden proto code]. rewrite Hm.
    destruct prototype; try discriminate; reflexivity.
  - intros Hnull. destruct prototype; try discriminate; try contradiction;
      reflexivity.
Qed.

Lemma createObject_fallback_differs_off_objects_witness :
  createObject_fallback 1 (VNum 5) heap0
  = Some (Ok (VObj (length heap0 + 2))
            (heap0 ++ fallback_objects (length heap0) (VNum 5) ObjectPrototype)) /\
  createObject VNull heap0
  = Ok (VObj (length heap0)) (heap0 ++ [mkObj ∅ [] None None]) /\
  (VNum 5 <> VNull ->
   createObject (VNum 5) heap0
   = Raise (TypeError "Object prototype may only be an Object or null") heap0).
Proof.
  apply (createObject_fallback_differs_off_objects 0 (VNum 5) heap0). reflexivity.
Defined.

(** ** Construction *)





(** The initializer of the witness returns the class, an object, and sets a
    field; [new C(1)] still gives the instance, with the field set. *)
Example construct_discards_init_result :
  res_value (construct 2 (VFun Returning.C) [VNum 1] Returning.made)
  = Some (VObj (length Returning.made)) /\
  lookup_prop Returning.after (length Returning.made) "x" = VNum 1 /\
  res_value (invoke 2 (VObj (length Returning.made)) "init" [VNum 1] Returning.after)
  = Some (VFun Returning.C).
Proof. repeat split; vm_compute; reflexivity. Qed.

(** ** What [create] never touches *)



















(** ** Subclasses: inherited and overriding members *)

Lemma subclass_extended p pl (h : Heap) pp t po :
  own h p "prototype" = Some pp -> loc_of pp = Some t ->
  h !! pl = Some po -> ordinary_members h pl = true ->
  (forall name v, props po !! name = Some v -> val_ok h v) ->
  exists hf,
    create [VFun p; VObj pl] h = Ok (VFun (length h)) hf /\
    extended (subclass_heap h pp t) hf (length h + 4) (child_table (length h) t)
      po pp (ownKeys h (VObj pl)).
Proof.
  intros Hown Ht Hpl Hord Hok.
  destruct (subclass_heap_facts h pp t) as (Hlen & Hfr & Hcl & Htb).
  pose proof (lookup_lt_Some _ _ _ Hpl) as Hplt.
  unfold create.
  change (parseArgs [VFun p; VObj pl])
    with (@inr Exn _ (mkParsedArgs (VFun p) (VObj pl) VUndef)).
  cbv iota. rewrite (create_from_child _ _ _ _ _ Hown Ht).
  unfold when. cbn [truthy].
  assert (Hne : pl <> length h + 4) by lia.
  destruct (extend_spec (VObj (length h + 4)) (VObj pl) pp (length h + 4) pl
              (child_table (length h) t) po (subclass_heap h pp t))
    as (hf & Hx & Hext); try reflexivity; try assumption.
  { rewrite Hfr by assumption. exact Hpl. }
  { now apply (builtin_frame h). }
  { now apply assignable_members_object. }
  { intros _ name v Hv. eapply val_ok_mono; [|eapply Hok; exact Hv]. lia. }
  exists hf. rewrite Hx. split; [reflexivity|].
  assert (Hk : ownKeys (subclass_heap h pp t) (VObj pl) = ownKeys h (VObj pl)).
  { unfold ownKeys. now rewrite Hfr. }
  now rewrite <- Hk.
Qed.


(** X4.  A subclass inherits by delegation: every name its members do not
    define resolves, from its member table, to what the parent's table
    resolves it to; only [constructor] is the table's own, and names the
    subclass.  (For an ordinary member set: one that resolves the builtin
    [hasOwnProperty] and has no member named [__proto__].) *)
Theorem subclass_inherits_by_delegation p pl (h : Heap) pp t po :
  own h p "prototype" = Some pp -> loc_of pp = Some t -> t < length h ->
  h !! pl = Some po -> ordinary_members h pl = true ->
  (forall name v, props po !! name = Some v -> val_ok h v) ->
  inherits_by_delegation p pl h pp t.
Proof.
  intros Hown Ht Hlt Hpl Hord Hok. unfold inherits_by_delegation.
  destruct (subclass_extended p pl h pp t po Hown Ht Hpl Hord Hok)
    as (hf & Hc & Hext).
  destruct (subclass_heap_facts h pp t) as (Hlen & Hfr & Hcl & Htb).
  destruct Hext as (Hge & _ & Hfrx & (o' & Ho' & Hpr & _ & _ & Hkeep) & _).
  assert (Hclf : hf !! length h
                 = Some (linked (class_fn (length h)) (length h + 4) pp)).
  { rewrite Hfrx by lia. exact Hcl. }
  exists hf. split; [exact Hc|]. split.
  { eapply lookup_prop_own; [exact Hclf|]. simpl.
    rewrite lookup_insert_ne by discriminate. apply lookup_insert_eq. }
  split.
  { eapply lookup_prop_own; [exact Hclf|]. apply lookup_insert_eq. }
  split.
  - intros name Hnot Hne.
    rewrite (lookup_prop_delegate _ _ _ t _ Ho'); try assumption; try lia.
    + apply lookup_prop_frame. intros l' Hl'. rewrite Hfrx by lia. apply Hfr. lia.
    + rewrite (Hkeep name Hnot). simpl.
      rewrite lookup_insert_ne by congruence. apply lookup_empty.
  - intros Hnot. eapply lookup_prop_own; [exact Ho'|].
    rewrite (Hkeep _ Hnot). apply lookup_insert_eq.
Qed.

(** X5.  The delegation is live, no copy is made: a member assigned to the
    parent's table after the subclass was created is seen through the
    subclass's table, for every name the subclass does not define.  (For an
    ordinary member set, and an assignment that makes a property: the name
    is not [__proto__], and not read-only on the parent's table should that
    be a function.) *)
Theorem subclass_sees_later_parent_members p pl (h : Heap) pp t po :
  own h p "prototype" = Some pp -> loc_of pp = Some t -> t < length h ->
  h !! pl = Some po -> ordinary_members h pl = true ->
  (forall name v, props po !! name = Some v -> val_ok h v) ->
  sees_later_parent_members p pl h pp.
Proof.
  intros Hown Ht Hlt Hpl Hord Hok. unfold sees_later_parent_members.
  destruct (subclass_extended p pl h pp t po Hown Ht Hpl Hord Hok)
    as (hf & Hc & Hext).
  destruct (subclass_heap_facts h pp t) as (Hlen & Hfr & Hcl & Htb).
  destruct Hext as (Hge & _ & Hfrx & (o' & Ho' & Hpr & _ & _ & Hkeep) & _).
  exists hf. split; [exact Hc|]. intros name x Hnot Hne Hasg.
  destruct (lookup_lt_is_Some_2 hf t) as [ot Hot]; [lia|].
  assert (Hro : read_only ot name = false).
  { unfold assignable in Hasg. destruct pp; try discriminate; simpl in Ht;
      injection Ht as ->; rewrite Hot in Hasg;
      apply andb_prop in Hasg as [Hasg _]; now apply negb_true_iff in Hasg. }
  rewrite (setProp_ref pp t name x hf ot Ht Hot Hro). eexists.
  split; [reflexivity|].
  assert (Htbl : <[t := set_own name x ot]> hf !! (length h + 4) = Some o').
  { rewrite list_lookup_insert_ne by lia. exact Ho'. }
  rewrite (lookup_prop_delegate _ _ _ t _ Htbl); try assumption; try lia.
  - now apply lookup_prop_set_own.
  - rewrite (Hkeep name Hnot). simpl.
    rewrite lookup_insert_ne by congruence. apply lookup_empty.
Qed.

Lemma subclass_inherits_by_delegation_witness :
  inherits_by_delegation 6 15 Statics.prepared (VObj 7) 7.
Proof.
  apply (subclass_inherits_by_delegation 6 15 Statics.prepared (VObj 7) 7
           (default (mkObj ∅ [] None None) (Statics.prepared !! 15))).
  - vm_compute. reflexivity.
  - reflexivity.
  - vm_compute. lia.
  - vm_compute. reflexivity.
  - vm_compute. reflexivity.
  - apply (bool_decide_unpack
             (map_Forall (fun (_ : string) v => val_ok Statics.prepared v) _)).
    vm_compute. exact I.
Defined.

Lemma subclass_sees_later_parent_members_witness :
  sees_later_parent_members 6 15 Statics.prepared (VObj 7).
Proof.
  apply (subclass_sees_later_parent_members 6 15 Statics.prepared (VObj 7) 7
           (default (mkObj ∅ [] None None) (Statics.prepared !! 15))).
  - vm_compute. reflexivity.
  - reflexivity.
  - vm_compute. lia.
  - vm_compute. reflexivity.
  - vm_compute. reflexivity.
  - apply (bool_decide_unpack
             (map_Forall (fun (_ : string) v => val_ok Statics.prepared v) _)).
    vm_compute. exact I.
Defined.




(** The subclass of the witness, evaluated: [greet] is wrapped against the
    table of [P], [other] and [count] are installed as they are. *)
Example create_wraps_greet_only :
  match create [VFun Overriding.P; VObj Overriding.members] Overriding.prepared with
  | Ok C hf =>
      C = VFun 15 /\
      own hf 19 "greet" = Some (VFun 20) /\
      callee hf (VFun 20)
      = Some (mkCallable wrap_src (wrap_body "greet" (VFun 10) (VObj Overriding.tableP))) /\
      own hf 19 "other" = Some (VFun 12) /\
      own hf 19 "count" = Some (VNum 0)
  | Raise _ _ => False
  end.
Proof. vm_compute. repeat split; reflexivity. Qed.

(** ** Root classes with members *)

Lemma root_super (h : Heap) :
  lookup_prop (h ++ class_objects (length h)) (length h) "__super__"
  = if (FunctionPrototype <? length h)%nat
    then lookup_prop h FunctionPrototype "__super__" else VUndef.
Proof.
  destruct (FunctionPrototype <? length h)%nat eqn:Hlt.
  - apply Nat.ltb_lt in Hlt.
    erewrite lookup_prop_delegate;
      [|rewrite lookup_alloc0; reflexivity|reflexivity|reflexivity|exact Hlt].
    apply lookup_prop_frame. intros l' Hl'. apply lookup_app_l.
    unfold FunctionPrototype in *. lia.
  - unfold lookup_prop. cbn [chain_get]. rewrite lookup_alloc0.
    cbn [class_objects lookup list_lookup props proto].
    rewrite lookup_singleton_ne by discriminate. now rewrite Hlt.
Qed.

Lemma installed_without_parent (h hf : Heap) obj sup name v :
  truthy sup = false -> installed h hf obj sup name v -> own hf obj name = Some v.
Proof. unfold installed, wraps. now intros ->. Qed.

Lemma not_enumerated (h : Heap) pl po name :
  h !! pl = Some po -> props po !! name = None \/ name ∈ hidden po ->
  name ∉ ownKeys h (VObj pl).
Proof.
  intros Hpl Hn Hin.
  apply (ownKeys_elem h (VObj pl) pl po name eq_refl Hpl) in Hin as [[x Hx] Hh].
  destruct Hn as [Hn|Hn]; [congruence|contradiction].
Qed.

(** X6.  A class without parent has no table to resolve super in, so none
    of its members is wrapped, whatever its text: [create(members)]
    allocates the four class objects only and installs every enumerable own
    member in the member table as it is; a member named [init] replaces the
    default one.  (For an ordinary member set, and a heap in which
    [Function.prototype] resolves no truthy [__super__], which is what the
    class would otherwise read.) *)
Theorem root_class_members_are_never_wrapped pl (h : Heap) po :
  h !! pl = Some po -> ordinary_members h pl = true ->
  truthy (lookup_prop h FunctionPrototype "__super__") = false ->
  root_members_direct pl h po.
Proof.
  intros Hpl Hord Hsup. unfold root_members_direct.
  pose proof (lookup_lt_Some _ _ _ Hpl) as Hplt.
  set (h1 := h ++ class_objects (length h)).
  set (sup := lookup_prop h1 (length h) "__super__").
  assert (Hfalsy : truthy sup = false).
  { unfold sup, h1. rewrite root_super.
    destruct (FunctionPrototype <? length h)%nat; [exact Hsup|reflexivity]. }
  assert (Htb : h1 !! (length h + 1)
                = Some (mkObj (<["init" := VFun (length h + 2)]>
                                 {["constructor" := VFun (length h)]})
                          ["constructor"] (Some ObjectPrototype) None)).
  { unfold h1. now rewrite lookup_alloc. }
  assert (Hpl1 : h1 !! pl = Some po) by (now apply lookup_app_l_Some).
  assert (Hne : pl <> length h + 1) by lia.
  assert (Hm1 : calls_builtin h1 pl = true).
  { apply (builtin_frame h); [|exact Hplt|exact Hord].
    intros l Hl. now apply lookup_app_l. }
  destruct (extend_spec (VObj (length h + 1)) (VObj pl) sup (length h + 1) pl
              _ po h1 eq_refl eq_refl Hne Htb Hpl1 Hm1)
    as (hf & Hx & Hext).
  { now apply assignable_members_object. }
  { rewrite Hfalsy. discriminate. }
  destruct Hext as (_ & Hna & _ & (o' & Ho' & _ & _ & _ & Hkeep) & Hinst).
  exists hf. split.
  { unfold create.
    change (parseArgs [VObj pl])
      with (@inr Exn _ (mkParsedArgs VUndef (VObj pl) VUndef)).
    cbv iota. rewrite create_from_prefix. cbn [parent pprops staticProps].
    unfold bind at 1. unfold when at 1. cbn [truthy]. unfold ret at 1.
    unfold bind at 1. unfold when at 1. cbn [truthy].
    unfold bind at 1. cbn [getProp]. fold h1.
    erewrite (lookup_prop_own h1 (length h) _ "prototype");
      [|unfold h1; rewrite lookup_alloc0; reflexivity|reflexivity].
    unfold bind at 1. cbn [getProp]. fold sup. rewrite Hx. reflexivity. }
  split.
  { rewrite (Hna Hfalsy). unfold h1. now rewrite length_app. }
  split.
  - intros name v Hv Hhid. apply (installed_without_parent h1 hf _ sup); [exact Hfalsy|].
    apply Hinst; [|exact Hv].
    apply (ownKeys_elem h1 (VObj pl) pl po name eq_refl Hpl1). eauto.
  - intros Hnot. unfold own. rewrite Ho'. simpl.
    rewrite (Hkeep "init" (not_enumerated h1 pl po "init" Hpl1 Hnot)).
    apply lookup_insert_eq.
Qed.

Lemma root_class_members_are_never_wrapped_witness :
  root_members_direct Overriding.members Overriding.prepared
    (default (mkObj ∅ [] None None) (Overriding.prepared !! Overriding.members)).
Proof.
  apply root_class_members_are_never_wrapped; vm_compute; reflexivity.
Defined.

(** The root class of the witness, evaluated: [greet], whose text contains
    the token, is in the member table as it is, and so are the others. *)
Example create_root_installs_greet_unwrapped :
  match create [VObj Overriding.members] Overriding.prepared with
  | Ok C hf =>
      C = VFun 15 /\ length hf = 19 /\
      own hf 16 "greet" = Some (VFun 10) /\
      callee hf (VFun 10) = Some Installing.greetOver /\
      own hf 16 "other" = Some (VFun 12) /\
      own hf 16 "count" = Some (VNum 0)
  | Raise _ _ => False
  end.
Proof. vm_compute. repeat split; reflexivity. Qed.

(** ** A parent whose prototype is [null] *)

Lemma inherit_eq_null p c (h : Heap) co :
  h !! c = Some co -> p <> c -> own h p "prototype" = Some VNull ->
  inherit (VFun p) (VFun c) h =
  Ok (VFun c)
     (<[c := linked co (length h) VNull]>
        (h ++ [mkObj (<["constructor" := VFun c]> ∅) [] None None])).
Proof.
  intros Hc Hne Hown. apply own_lookup in Hown as (po & Hp & Hpp).
  pose proof (lookup_lt_Some _ _ _ Hc) as Hclt.
  pose proof (lookup_lt_Some _ _ _ Hp) as Hplt.
  unfold inherit, bind. cbn [getProp].
  rewrite (lookup_prop_own _ _ _ _ _ Hp Hpp). cbn [createObject].
  unfold bind, alloc, ret.
  cbn [setProp]. rewrite (lookup_app_l_Some _ _ _ _ Hc).
  rewrite read_only_other by reflexivity.
  rewrite lookup_prop_set_own by (now apply lookup_app_l_Some).
  cbn [setProp]. rewrite list_lookup_insert_ne by lia. rewrite lookup_alloc0.
  cbn [lookup list_lookup read_only code existsb].
  erewrite (lookup_prop_own _ p po);
    [|rewrite !list_lookup_insert_ne by lia; now apply lookup_app_l_Some|exact Hpp].
  rewrite list_lookup_insert_ne by lia.
  rewrite list_lookup_insert_eq by (rewrite length_app; lia).
  rewrite read_only_other by reflexivity.
  rewrite (list_insert_insert_ne _ (length h) c) by lia.
  rewrite list_insert_insert_eq.
  pose proof (insert_alloc h [mkObj ∅ [] None None] 0
                (set_own "constructor" (VFun c) (mkObj ∅ [] None None))) as E.
  rewrite Nat.add_0_r in E. rewrite E. reflexivity.
Qed.

(** X16.  A parent whose [prototype] is [null] can be linked:
    [Object.create(null)] gives the subclass a member table that delegates
    to nothing, and [__super__] is [null], which [Helper.extend] takes for no
    parent table.  The subclass inherits nothing and none of its members is
    wrapped, whatever its text: every enumerable own member is installed as
    it is.  (For an ordinary member set.) *)
Theorem null_prototype_parent_gives_bare_class p pl (h : Heap) po :
  own h p "prototype" = Some VNull -> h !! pl = Some po ->
  ordinary_members h pl = true ->
  inherits_nothing p pl h po.
Proof.
  intros Hown Hpl Hord. unfold inherits_nothing.
  pose proof Hown as Hown'. apply own_lookup in Hown' as (pobj & Hp & Hpp).
  pose proof (lookup_lt_Some _ _ _ Hp) as Hplt.
  pose proof (lookup_lt_Some _ _ _ Hpl) as Hpllt.
  set (n := length h).
  set (tbl := mkObj (<["constructor" := VFun n]> ∅) [] None None).
  set (h2 := <[n := linked (class_fn n) (n + 4) VNull]>
               (h ++ class_objects n ++ [tbl])).
  assert (Hlen2 : length h2 = n + 5).
  { unfold h2. rewrite length_insert, !length_app. cbn [length class_objects].
    unfold n. lia. }
  assert (Hfr2 : forall l, l < n -> h2 !! l = h !! l).
  { intros l Hl. unfold h2. rewrite list_lookup_insert_ne by lia.
    apply lookup_app_l. unfold n in Hl. lia. }
  assert (Hcl2 : h2 !! n = Some (linked (class_fn n) (n + 4) VNull)).
  { unfold h2. apply list_lookup_insert_eq. rewrite !length_app.
    cbn [length class_objects]. unfold n. lia. }
  assert (Htb2 : h2 !! (n + 4) = Some tbl).
  { unfold h2. rewrite list_lookup_insert_ne by lia. unfold n.
    now rewrite lookup_alloc. }
  assert (Hne : pl <> n + 4) by (unfold n; lia).
  assert (Hpl2 : h2 !! pl = Some po).
  { rewrite Hfr2 by (unfold n; lia). exact Hpl. }
  assert (Hm2 : calls_builtin h2 pl = true).
  { now apply (builtin_frame h). }
  destruct (extend_spec (VObj (n + 4)) (VObj pl) VNull (n + 4) pl tbl po h2
              eq_refl eq_refl Hne Htb2 Hpl2 Hm2)
    as (hf & Hx & Hext); [now apply assignable_members_object|discriminate|].
  destruct Hext as (_ & Hna & Hfrx & (o' & Ho' & Hpr & _ & _ & Hkeep) & Hinst).
  specialize (Hna eq_refl).
  exists hf. split.
  { unfold create.
    change (parseArgs [VFun p; VObj pl])
      with (@inr Exn _ (mkParsedArgs (VFun p) (VObj pl) VUndef)).
    cbv iota. rewrite create_from_prefix. cbn [parent pprops staticProps].
    fold n. unfold bind at 1. unfold when at 1. cbn [truthy].
    assert (Hpn : p <> n) by (unfold n; lia).
    rewrite (inherit_eq_null p n (h ++ class_objects n) (class_fn n));
      [|unfold n; rewrite lookup_alloc0; reflexivity|exact Hpn
       |unfold own; now rewrite (lookup_app_l_Some _ _ _ _ Hp)].
    rewrite length_app. change (length (class_objects n)) with 4.
    rewrite <- app_assoc. fold n tbl h2.
    unfold bind at 1. unfold when at 1. cbn [truthy].
    unfold bind at 1. cbn [getProp].
    erewrite (lookup_prop_own h2 n _ "prototype"); [|exact Hcl2|reflexivity].
    unfold bind at 1. cbn [getProp].
    erewrite (lookup_prop_own h2 n _ "__super__");
      [|exact Hcl2|apply lookup_insert_eq].
    rewrite Hx. reflexivity. }
  split; [lia|]. split.
  { eapply lookup_prop_own;
      [rewrite Hfrx by lia; exact Hcl2|apply lookup_insert_eq]. }
  split.
  - intros name v Hv Hhid.
    apply (installed_without_parent h2 hf _ VNull); [reflexivity|].
    apply Hinst; [|exact Hv].
    apply (ownKeys_elem h2 (VObj pl) pl po name eq_refl Hpl2). eauto.
  - intros name Hnot Hnc.
    unfold lookup_prop. cbn [chain_get].
    rewrite Ho', (Hkeep _ (not_enumerated h2 pl po name Hpl2 Hnot)).
    unfold tbl. cbn [props]. rewrite lookup_insert_ne by congruence.
    rewrite lookup_empty, Hpr. reflexivity.
Qed.

Lemma null_prototype_parent_gives_bare_class_witness :
  inherits_nothing 10 15
    (res_heap (setProp (VFun 10) "prototype" VNull Statics.prepared))
    (default (mkObj ∅ [] None None) (Statics.prepared !! 15)).
Proof.
  apply null_prototype_parent_gives_bare_class; vm_compute; reflexivity.
Defined.

(** ** Member sets without a [hasOwnProperty] to call *)

(** X17.  [Helper.extend] calls [props.hasOwnProperty] on the member set
    itself.  When no function is found under that name (the member set has
    a member of that name that is no function, or its chain does not reach
    [Object.prototype]) and there is a name for the loop to visit, the
    installation ends at once with a TypeError: nothing is installed and the
    heap is as it was. *)
Theorem extend_needs_hasOwnProperty obj props0 sup pl (h : Heap) :
  loc_of props0 = Some pl -> forInKeys h props0 <> [] ->
  callee h (lookup_prop h pl "hasOwnProperty") = None ->
  extend obj props0 sup h
  = Raise (TypeError "props.hasOwnProperty is not a function") h.
Proof.
  intros Hp Hk Hc. unfold extend, bind, heap_now.
  destruct (forInKeys h props0) as [|name rest]; [contradiction|].
  cbn [extend_loop]. unfold bind, extend_visit, bind, hasOwnProperty, bind.
  rewrite (getProp_ref _ _ _ _ Hp). unfold heap_now. now rewrite Hc.
Qed.

Lemma extend_needs_hasOwnProperty_witness :
  extend (VObj Bare.target) (VObj Bare.members) (VObj Bare.table) Bare.prepared
  = Raise (TypeError "props.hasOwnProperty is not a function") Bare.prepared.
Proof.
  apply (extend_needs_hasOwnProperty _ _ _ Bare.members).
  - reflexivity.
  - vm_compute. discriminate.
  - vm_compute. reflexivity.
Defined.

(** The member set of the witness is made by [Object.create(null)] and
    given one member; [create] on it throws as well, after it has allocated
    the class objects. *)
Example create_throws_on_bare_member_set :
  proto (default (mkObj ∅ [] None None) (Bare.prepared !! Bare.members)) = None /\
  ownKeys Bare.prepared (VObj Bare.members) = ["greet"] /\
  create [VObj Bare.members] Bare.prepared
  = Raise (TypeError "props.hasOwnProperty is not a function")
      (Bare.prepared ++ class_objects (length Bare.prepared)).
Proof. repeat split; vm_compute; reflexivity. Qed.

(** ** Static members a function cannot take *)

Section ReadOnlyName.

Variables (obj props0 : Value) (ol pl : loc) (po : Obj) (bad : string).
Hypothesis Hobj : loc_of obj = Some ol.
Hypothesis Hprops : loc_of props0 = Some pl.
Hypothesis Hdistinct : pl <> ol.
Hypothesis Hbad : is_Some (props po !! bad).

(** The loop without a parent table, up to the first name the target
    cannot take: the names before it are installed, then the assignment of
    line 37 throws. *)
Lemma extend_loop_read_only : forall names (h : Heap) oo,
  NoDup names -> bad ∈ names ->
  h !! ol = Some oo -> h !! pl = Some po -> calls_builtin h pl = true ->
  read_only oo bad = true ->
  exists hf o',
    extend_loop obj props0 VUndef names h
    = Raise (TypeError "cannot assign to a read-only property") hf /\
    length hf = length h /\
    (forall l, l <> ol -> hf !! l = h !! l) /\
    hf !! ol = Some o' /\ props o' !! bad = props oo !! bad.
Proof.
  induction names as [|name rest IH]; intros h oo Hnd Hin Hol Hpl Hm Hro.
  - now apply elem_of_nil in Hin.
  - apply NoDup_cons in Hnd as [Hfresh Hnd].
    cbn [extend_loop]. unfold bind at 1.
    rewrite (extend_visit_eq obj props0 VUndef pl po Hprops name h Hpl Hm).
    destruct (props po !! name) as [v|] eqn:Hv.
    + destruct (read_only oo name) eqn:Hron.
      * exists h, oo. split.
        { unfold extend_member. cbn [truthy]. unfold bind.
          rewrite (getProp_ref _ _ _ _ Hprops).
          destruct obj; try discriminate; simpl in Hobj; injection Hobj as ->;
            cbn [setProp]; now rewrite Hol, Hron. }
        auto.
      * assert (Hne : name <> bad) by (intros ->; congruence).
        destruct (extend_member_step obj props0 VUndef ol pl po Hobj Hprops
                    Hdistinct name v h oo Hol Hpl Hv Hron)
          as (h1 & x & Hstep & H1ol & H1pl & Hlen1 & Hna1 & Hfr1 & _).
        specialize (Hna1 eq_refl).
        assert (Hm1 : calls_builtin h1 pl = true).
        { apply (calls_builtin_stable h h1 ol oo pl po name x); try assumption.
          intros Hnone ->. congruence. }
        apply elem_of_cons in Hin as [Heq|Hin]; [congruence|].
        destruct (IH h1 (set_own name x oo) Hnd Hin H1ol H1pl Hm1 Hro)
          as (hf & o' & Hloop & Hlen & Hfr & Ho' & Hsame).
        exists hf, o'. rewrite Hstep. split; [exact Hloop|].
        split; [lia|]. split.
        { intros l Hl. rewrite Hfr by assumption.
          destruct (decide (l < length h)) as [Hlt|Hge]; [now apply Hfr1|].
          rewrite (proj2 (lookup_ge_None h l)) by lia.
          apply lookup_ge_None. lia. }
        split; [exact Ho'|]. rewrite Hsame. simpl.
        now apply lookup_insert_ne.
    + apply elem_of_cons in Hin as [Heq|Hin].
      * subst name. destruct Hbad as [? ?]. congruence.
      * now apply (IH h oo).
Qed.

End ReadOnlyName.

(** X18.  The static members are assigned to the class value, a function,
    in strict mode.  When an enumerable own static member is named like a
    read-only property of a function ([name], [length], [caller],
    [arguments]), the installation ends with a TypeError at that member:
    the member is not installed, and no object but the class value has been
    written. *)
Theorem static_member_with_read_only_name_throws
  Class statics cl sl co so (h : Heap) name v :
  loc_of Class = Some cl -> loc_of statics = Some sl -> sl <> cl ->
  h !! cl = Some co -> h !! sl = Some so -> calls_builtin h sl = true ->
  props so !! name = Some v -> name ∉ hidden so -> read_only co name = true ->
  exists hf,
    extend Class statics VUndef h
    = Raise (TypeError "cannot assign to a read-only property") hf /\
    length hf = length h /\
    (forall l, l <> cl -> hf !! l = h !! l) /\
    own hf cl name = own h cl name.
Proof.
  intros Hc Hs Hne Hcl Hsl Hm Hv Hhid Hro.
  destruct (extend_loop_read_only Class statics cl sl so name Hc Hs Hne
              (ex_intro _ v Hv) (forInKeys h statics) h co)
    as (hf & o' & Hloop & Hlen & Hfr & Ho' & Hsame); try assumption.
  - apply forInKeys_NoDup.
  - apply (forInKeys_own h statics sl so name Hs Hsl (ex_intro _ v Hv)).
    apply (ownKeys_elem h statics sl so name Hs Hsl). eauto.
  - exists hf. split.
    + unfold extend, bind, heap_now. now rewrite Hloop.
    + split; [exact Hlen|]. split; [exact Hfr|].
      unfold own. now rewrite Ho', Hcl.
Qed.

Lemma static_member_with_read_only_name_throws_witness :
  exists hf,
    extend (VFun Shadowing.greet) (VObj Shadowing.lengths) VUndef Shadowing.prepared
    = Raise (TypeError "cannot assign to a read-only property") hf /\
    length hf = length Shadowing.prepared /\
    (forall l, l <> Shadowing.greet -> hf !! l = Shadowing.prepared !! l) /\
    own hf Shadowing.greet "length" = own Shadowing.prepared Shadowing.greet "length".
Proof.
  apply (static_member_with_read_only_name_throws
           (VFun Shadowing.greet) (VObj Shadowing.lengths)
           Shadowing.greet Shadowing.lengths
           (default (mkObj ∅ [] None None) (Shadowing.prepared !! Shadowing.greet))
           (default (mkObj ∅ [] None None) (Shadowing.prepared !! Shadowing.lengths))
           Shadowing.prepared "length" (VNum 2)).
  - reflexivity.
  - reflexivity.
  - vm_compute. lia.
  - vm_compute. reflexivity.
  - vm_compute. reflexivity.
  - vm_compute. reflexivity.
  - vm_compute. reflexivity.
  - apply (bool_decide_unpack ("length" ∉ ([] : list string))). vm_compute. exact I.
  - vm_compute. reflexivity.
Defined.
